(** * threeML: Bayesian sampler base and GBM background polynomial fit

    A shallow embedding of
    - [threeML/bayesian/sampler_base.py] (module [Sampler]): registration of
      model and data, posterior / prior / likelihood evaluation and the
      unit-cube closures;
    - [threeML/plugins/FermiGBM_TTE_Like.py] (module [Bkg]): the Cash
      likelihood, the [Polynomial] class, the finite-difference covariance and
      the polynomial fit with its degree selection.

    Python floats and numpy float64 are IEEE binary64 numbers: they are
    modelled by the kernel's primitive floats.  Python objects that are mutated
    through shared references are modelled by explicit state passing. *)

From Stdlib Require Import Floats ZArith String List Lia Bool.
From stdpp Require Import base list strings.

Set Default Proof Using "Type".

(** ** Python exceptions and results *)

Inductive exn : Type :=
| AssertionError (msg : string)
| RuntimeError (msg : string)
| PyException (msg : string)          (* [raise Exception(msg)] *)
| IndexError
| TypeError
| ValueError
| ModelAssertionViolation             (* astromodels.functions.function *)
| OtherError (tag : string).          (* anything else a collaborator raises *)

Inductive result (A : Type) : Type :=
| Ok (a : A)
| Raise (e : exn).
Arguments Ok {A} a.
Arguments Raise {A} e.

Definition is_Ok {A} (r : result A) : bool :=
  match r with Ok _ => true | Raise _ => false end.

(** ** Floating point helpers *)

Definition py_inf : float := infinity.            (* [np.inf] *)

(** [np.isfinite] *)
Definition np_isfinite (x : float) : bool := is_finite x.

(** [a in b] on Python strings: [a] occurs in [b] as a substring. *)
Fixpoint str_in (a b : string) : bool :=
  String.prefix a b ||
  match b with
  | EmptyString => false
  | String _ b' => str_in a b'
  end.

(** [str_in] is the substring test. *)
Lemma prefix_spec (a b : string) :
  String.prefix a b = true <-> exists post, b = (a ++ post)%string.
Proof.
  revert b. induction a as [|c a IH]; intros b.
  - split; [intros _; exists b; reflexivity | intros _; destruct b; reflexivity].
  - destruct b as [|c' b]; simpl.
    + split; [discriminate | intros [post H]; discriminate].
    + destruct (Ascii.ascii_dec c c') as [->|Hne].
      * rewrite IH. split; intros [post H]; exists post; [subst; reflexivity|].
        injection H as ->. reflexivity.
      * split; [discriminate | intros [post H]; injection H as -> _; congruence].
Qed.

Lemma str_in_spec (a b : string) :
  str_in a b = true <-> exists pre post, b = (pre ++ a ++ post)%string.
Proof.
  induction b as [|c b IH].
  - cbn [str_in]. rewrite orb_false_r, prefix_spec. split.
    + intros [post H]. exists EmptyString, post. exact H.
    + intros (pre & post & H). destruct pre as [|c pre]; [|discriminate].
      exists post. exact H.
  - cbn [str_in]. rewrite orb_true_iff, prefix_spec, IH. split.
    + intros [[post H]|(pre & post & H)].
      * exists EmptyString, post. exact H.
      * exists (String c pre), post. simpl. rewrite H. reflexivity.
    + intros (pre & post & H). destruct pre as [|c' pre].
      * left. exists post. exact H.
      * right. simpl in H. injection H as _ H. exists pre, post. exact H.
Qed.

(** Facts on binary64 comparisons and addition, from their specification. *)

Lemma Prim2SF_zero : Prim2SF 0%float = S754_zero false.
Proof. reflexivity. Qed.

Lemma float_pos_neq_zero (x : float) :
  (0 <? x)%float = true -> (x =? 0)%float = false.
Proof.
  rewrite FloatAxioms.ltb_spec, FloatAxioms.eqb_spec, Prim2SF_zero.
  unfold SFltb, SFeqb.
  destruct (Prim2SF x) as [s|s| |s m e]; simpl; try destruct s; congruence.
Qed.

Lemma float_pos_not_le_zero (x : float) :
  (0 <? x)%float = true -> (x <=? 0)%float = false.
Proof.
  rewrite FloatAxioms.ltb_spec, FloatAxioms.leb_spec, Prim2SF_zero.
  unfold SFltb, SFleb.
  destruct (Prim2SF x) as [s|s| |s m e]; simpl; try destruct s; congruence.
Qed.

Lemma float_eq_zero_not_pos (x : float) :
  (x =? 0)%float = true -> (0 <? x)%float = false.
Proof.
  intros H. destruct (0 <? x)%float eqn:E; [|reflexivity].
  apply float_pos_neq_zero in E. congruence.
Qed.

Lemma float_not_neg_le_zero (x : float) :
  (x <? 0)%float = false -> (x <=? 0)%float = true -> (x =? 0)%float = true.
Proof.
  rewrite FloatAxioms.ltb_spec, FloatAxioms.leb_spec, FloatAxioms.eqb_spec, Prim2SF_zero.
  unfold SFltb, SFleb, SFeqb.
  destruct (Prim2SF x) as [s|s| |s m e]; simpl; try destruct s; congruence.
Qed.

Lemma float_neg_not_pos (x : float) :
  (x <? 0)%float = true -> (0 <? x)%float = false.
Proof.
  rewrite !FloatAxioms.ltb_spec, Prim2SF_zero.
  unfold SFltb.
  destruct (Prim2SF x) as [s|s| |s m e]; simpl; try destruct s; congruence.
Qed.

Lemma SFadd_comm prec emax (x y : spec_float) :
  SFadd prec emax x y = SFadd prec emax y x.
Proof.
  destruct x as [sx|sx| |sx mx ex], y as [sy|sy| |sy my ey]; simpl;
    try reflexivity; try (destruct sx, sy; reflexivity).
  rewrite (Z.min_comm ex ey), Z.add_comm. reflexivity.
Qed.

Lemma float_add_comm (x y : float) : (x + y = y + x)%float.
Proof.
  apply Prim2SF_inj. rewrite !FloatAxioms.add_spec. apply SFadd_comm.
Qed.

Lemma float_neg_neq_zero (x : float) :
  (x <? 0)%float = true -> (x =? 0)%float = false.
Proof.
  rewrite FloatAxioms.ltb_spec, FloatAxioms.eqb_spec, Prim2SF_zero.
  unfold SFltb, SFeqb.
  destruct (Prim2SF x) as [s|s| |s m e]; simpl; try destruct s; congruence.
Qed.

Lemma float_neg_le_zero (x : float) :
  (x <? 0)%float = true -> (x <=? 0)%float = true.
Proof.
  rewrite FloatAxioms.ltb_spec, FloatAxioms.leb_spec, Prim2SF_zero.
  unfold SFltb, SFleb.
  destruct (Prim2SF x) as [s|s| |s m e]; simpl; try destruct s; congruence.
Qed.

Lemma float_neg_zero_not_neg (x : float) :
  (x =? 0)%float = true -> (x <? 0)%float = false.
Proof.
  intros H. destruct (x <? 0)%float eqn:E; [|reflexivity].
  apply float_neg_neq_zero in E. congruence.
Qed.

(** A number whose absolute value is below a bound is positive, negative
    or zero. *)
Lemma float_sign_cases (x y : float) :
  (abs x <=? y)%float = true ->
  (0 <? x)%float = true \/ (x <? 0)%float = true \/ (x =? 0)%float = true.
Proof.
  rewrite FloatAxioms.leb_spec, FloatAxioms.abs_spec, !FloatAxioms.ltb_spec,
    FloatAxioms.eqb_spec, Prim2SF_zero.
  unfold SFltb, SFleb, SFeqb.
  destruct (Prim2SF x) as [s|s| |s m e]; simpl; try destruct s; auto; discriminate.
Qed.

Lemma SFcompare_antisym (x y : spec_float) :
  SFcompare y x = option_map CompOpp (SFcompare x y).
Proof.
  destruct x as [sx|sx| |sx mx ex], y as [sy|sy| |sy my ey]; simpl;
    try reflexivity; try (destruct sx; reflexivity); try (destruct sy; reflexivity);
    try (destruct sx, sy; reflexivity).
  pose proof (Pos.compare_cont_antisym mx my Eq) as Ha. simpl in Ha.
  destruct sx, sy; simpl; try reflexivity;
    rewrite (Z.compare_antisym ex ey); destruct (ex ?= ey)%Z; simpl; try reflexivity;
    rewrite <- Ha; destruct (Pos.compare_cont Eq mx my); reflexivity.
Qed.

(** Two numbers are comparable unless one of them is not a number. *)
Lemma float_lt_or_ge (a b : float) :
  (a <? b)%float = true \/ (b <=? a)%float = true \/
  is_nan a = true \/ is_nan b = true.
Proof.
  unfold is_nan.
  rewrite FloatAxioms.ltb_spec, FloatAxioms.leb_spec, !FloatAxioms.eqb_spec.
  unfold SFltb, SFleb, SFeqb. rewrite (SFcompare_antisym (Prim2SF a) (Prim2SF b)).
  destruct (SFcompare (Prim2SF a) (Prim2SF b)) as [[]|] eqn:E; simpl; auto.
  destruct (Prim2SF a) as [sa|sa| |sa ma ea]; simpl; auto;
    destruct (Prim2SF b) as [sb|sb| |sb mb eb]; simpl; auto; discriminate.
Qed.

(** A number minus itself is zero, or not a number. *)
Lemma float_sub_self (v : float) :
  (v - v =? 0)%float = true \/ is_nan (v - v)%float = true.
Proof.
  unfold is_nan. rewrite !FloatAxioms.eqb_spec, !FloatAxioms.sub_spec, Prim2SF_zero.
  unfold SF64sub.
  destruct (Prim2SF v) as [s|s| |s m e]; simpl; try destruct s; auto;
    rewrite Z.sub_diag; simpl; auto.
Qed.

(** Zero times a finite number, plus [c], is [c]; zero times an infinite
    number, or one that is not a number, is not a number. *)
Lemma float_zero_mul_add (c x : float) :
  (is_finite x = true -> is_nan c = false -> (0 * x + c =? c)%float = true) /\
  (is_finite x = false -> is_nan (0 * x + c)%float = true).
Proof.
  unfold is_finite, is_nan, is_infinity.
  rewrite !FloatAxioms.eqb_spec, FloatAxioms.abs_spec, !FloatAxioms.add_spec,
    !FloatAxioms.mul_spec, Prim2SF_zero.
  change (Prim2SF infinity) with (S754_infinity false).
  unfold SF64add, SF64mul, SFeqb.
  destruct (Prim2SF x) as [sx|sx| |sx mx ex], (Prim2SF c) as [sc|sc| |sc mc ec]; simpl;
    rewrite ?Z.compare_refl, ?Pos.compare_cont_refl;
    repeat match goal with b : bool |- _ => destruct b end; simpl;
    split; intros; try discriminate; try reflexivity.
Qed.

(** * The sampler base class *)

Module Sampler.

(** A prior is a callable density; only some priors carry the
    [from_unit_cube] attribute. *)
Record Prior : Type := {
  density : float -> float;
  from_unit_cube : option (float -> float)
}.

(** An astromodels parameter: the live value and the prior (if one is set). *)
Record Param : Type := {
  value : float;
  prior : option Prior
}.

Definition has_prior (p : Param) : bool :=
  match prior p with Some _ => true | None => false end.

Definition set_value (v : float) (p : Param) : Param :=
  {| value := v; prior := prior p |}.

(** A dataset (plugin).  [get_log_like()] takes no argument: it reads the
    live parameter objects, which the sampler holds in [_free_parameters]. *)
Record Dataset : Type := {
  name : string;
  nuisance_parameters : list (string * Param);
  get_log_like : list (string * Param) -> result float
}.

(** What the outside world can observe of a run besides the returned value. *)
Inductive Event : Type :=
| EvGetLogLike (dataset : string)                 (* a call of [dataset.get_log_like()] *)
| EvWarnLikelihoodIsInfinite (trial_values : list float)
| EvPrint (trial_values : list float) (log_like : float).

Section SamplerBase.

(** The likelihood model is an astromodels object; the sampler uses two of
    its operations. *)
Variable Model : Type.
Variable free_parameters : Model -> list (string * Param).
Variable add_external_parameter : Param -> Model -> Model.
(** [dataset.set_model(model)] is plugin code; it may adjust the nuisance
    parameters of the dataset. *)
Variable set_model : Model -> Dataset -> Dataset.
(** [math.log10] on arguments where it does not raise, and [np.sum]. *)
Variable log10 : float -> float.
Variable np_sum : list float -> float.

Record World : Type := {
  _likelihood_model : Model;
  _data_list : list Dataset;                     (* [self._data_list.values()] *)
  _free_parameters : list (string * Param);  (* ordered dict, live objects *)
  _verbose : bool;
  _is_registered : bool;
  events : list Event
}.

(** State and exceptions; a raised exception keeps the mutations made so far. *)
Definition M (A : Type) : Type := World -> result A * World.

Definition ret {A} (a : A) : M A := fun w => (Ok a, w).
Definition raise {A} (e : exn) : M A := fun w => (Raise e, w).
Definition bind {A B} (m : M A) (k : A -> M B) : M B :=
  fun w => match m w with
           | (Ok a, w') => k a w'
           | (Raise e, w') => (Raise e, w')
           end.
Definition get : M World := fun w => (Ok w, w).
Definition modify (f : World -> World) : M unit := fun w => (Ok tt, f w).

Notation "'let*' x ':=' m 'in' k" := (bind m (fun x => k))
  (at level 10, x pattern, m at level 100, k at level 200, only parsing).

Definition with_free_parameters (fps : list (string * Param)) (w : World) : World :=
  {| _likelihood_model := _likelihood_model w; _data_list := _data_list w;
     _free_parameters := fps; _verbose := _verbose w;
     _is_registered := _is_registered w; events := events w |}.

Definition log_event (e : Event) (w : World) : World :=
  {| _likelihood_model := _likelihood_model w; _data_list := _data_list w;
     _free_parameters := _free_parameters w; _verbose := _verbose w;
     _is_registered := _is_registered w; events := events w ++ [e] |}.

(** [trial_values[i]] *)
Definition getitem (trial_values : list float) (i : nat) : M float :=
  match trial_values !! i with
  | Some x => ret x
  | None => raise IndexError
  end.

(** [parameter.prior(x)]: calling [None] is a [TypeError]. *)
Definition call_prior (parameter : Param) (x : float) : M float :=
  match prior parameter with
  | Some pr => ret (density pr x)
  | None => raise TypeError
  end.

(** [math.log10(x)]: a math domain error for [x <= 0]. *)
Definition math_log10 (x : float) : M float :=
  if (x <=? 0)%float then raise ValueError else ret (log10 x).

(** [parameter.value = x] for the [i]-th entry of [self._free_parameters]. *)
Definition assign_value (i : nat) (x : float) : M unit :=
  modify (fun w =>
    with_free_parameters
      (alter (fun '(n, p) => (n, set_value x p)) i (_free_parameters w)) w).

(** [_update_free_parameters] *)
Definition _update_free_parameters : M unit :=
  modify (fun w => with_free_parameters (free_parameters (_likelihood_model w)) w).

(** The list comprehension of [_log_like]: the datasets are asked in order
    and the first exception ends the comprehension. *)
Fixpoint log_like_values (datasets : list Dataset) : M (list float) :=
  match datasets with
  | [] => ret []
  | dataset :: rest =>
      let* _ := modify (log_event (EvGetLogLike (name dataset))) in
      let* w := get in
      match get_log_like dataset (_free_parameters w) with
      | Ok v => let* vs := log_like_values rest in ret (v :: vs)
      | Raise e => raise e
      end
  end.

(** [_log_like]: [try ... except ModelAssertionViolation: return -inf;
    except: raise], then the finiteness check. *)
Definition _log_like (trial_values : list float) : M float :=
  fun w =>
    match log_like_values (_data_list w) w with
    | (Raise ModelAssertionViolation, w') => (Ok (- py_inf)%float, w')
    | (Raise e, w') => (Raise e, w')
    | (Ok values, w') =>
        let log_like := np_sum values in
        if negb (np_isfinite log_like) then
          (Ok (- py_inf)%float, log_event (EvWarnLikelihoodIsInfinite trial_values) w')
        else (Ok log_like, w')
    end.

(** The [for] loop of [get_posterior] (lines 321-334); [inr v] is the
    [return v] inside the loop body, [inl log_prior] the normal end. *)
Fixpoint get_posterior_loop (items : list (string * Param)) (i : nat)
    (trial_values : list float) (log_prior : float) : M (float + float) :=
  match items with
  | [] => ret (inl log_prior)
  | (parameter_name, parameter) :: rest =>
      let* x := getitem trial_values i in
      let* prior_value := call_prior parameter x in
      if (prior_value =? 0)%float then ret (inr (- py_inf)%float)
      else
        let* x' := getitem trial_values i in
        let* _ := assign_value i x' in
        let* l := math_log10 prior_value in
        get_posterior_loop rest (S i) trial_values (log_prior + l)%float
  end.

Definition get_posterior (trial_values : list float) : M float :=
  let* w := get in
  if negb (length (_free_parameters w) =? length trial_values)%nat then
    raise (AssertionError
      "Something is wrong. Number of free parameters do not match the number of trial values.")
  else
    let* r := get_posterior_loop (_free_parameters w) 0 trial_values 0%float in
    match r with
    | inr v => ret v
    | inl log_prior =>
        let* log_like := _log_like trial_values in
        ret (log_like + log_prior)%float
    end.

(** The [for] loop of [_log_prior] (lines 349-362). *)
Fixpoint _log_prior_loop (items : list (string * Param)) (i : nat)
    (trial_values : list float) (log_prior : float) : M (float + float) :=
  match items with
  | [] => ret (inl log_prior)
  | (parameter_name, parameter) :: rest =>
      let* x := getitem trial_values i in
      let* prior_value := call_prior parameter x in
      if (prior_value =? 0)%float then ret (inr (- py_inf)%float)
      else
        let* x' := getitem trial_values i in
        let* _ := assign_value i x' in
        let* l := math_log10 prior_value in
        _log_prior_loop rest (S i) trial_values (log_prior + l)%float
  end.

Definition _log_prior (trial_values : list float) : M float :=
  let* w := get in
  let* r := _log_prior_loop (_free_parameters w) 0 trial_values 0%float in
  match r with
  | inr v => ret v
  | inl log_prior => ret log_prior
  end.

(** *** Registration (lines 76-125) *)

Definition with_model (m : Model) (w : World) : World :=
  {| _likelihood_model := m; _data_list := _data_list w;
     _free_parameters := _free_parameters w; _verbose := _verbose w;
     _is_registered := _is_registered w; events := events w |}.

Definition with_data_list (dl : list Dataset) (w : World) : World :=
  {| _likelihood_model := _likelihood_model w; _data_list := dl;
     _free_parameters := _free_parameters w; _verbose := _verbose w;
     _is_registered := _is_registered w; events := events w |}.

Definition with_verbose (b : bool) (w : World) : World :=
  {| _likelihood_model := _likelihood_model w; _data_list := _data_list w;
     _free_parameters := _free_parameters w; _verbose := b;
     _is_registered := _is_registered w; events := events w |}.

Definition with_is_registered (b : bool) (w : World) : World :=
  {| _likelihood_model := _likelihood_model w; _data_list := _data_list w;
     _free_parameters := _free_parameters w; _verbose := _verbose w;
     _is_registered := b; events := events w |}.

Definition missing_prior_msg : string :=
  "You need to define priors for all free parameters before instancing a Bayesian analysis".

Definition nuisance_name_msg : string :=
  "This is a bug of the plugin: nuisance parameters must contain the instance name".

(** The loop over [likelihood_model.free_parameters.items()]. *)
Fixpoint check_priors (items : list (string * Param)) : M unit :=
  match items with
  | [] => ret tt
  | (parameter_name, parameter) :: rest =>
      if negb (has_prior parameter) then raise (RuntimeError missing_prior_msg)
      else check_priors rest
  end.

(** The loop over [list(dataset.nuisance_parameters.items())]. *)
Fixpoint add_nuisance_parameters (dataset_name : string)
    (items : list (string * Param)) : M unit :=
  match items with
  | [] => ret tt
  | (parameter_name, parameter) :: rest =>
      if negb (str_in dataset_name parameter_name) then
        raise (AssertionError nuisance_name_msg)
      else
        let* _ := modify (fun w =>
                    with_model (add_external_parameter parameter (_likelihood_model w)) w) in
        add_nuisance_parameters dataset_name rest
  end.

(** The loop over [list(self._data_list.values())]; [set_model] mutates the
    [i]-th dataset object. *)
Fixpoint register_datasets (datasets : list Dataset) (i : nat) : M unit :=
  match datasets with
  | [] => ret tt
  | dataset :: rest =>
      let* w := get in
      let dataset' := set_model (_likelihood_model w) dataset in
      let* _ := modify (fun w => with_data_list (<[i := dataset']> (_data_list w)) w) in
      let* _ := add_nuisance_parameters (name dataset') (nuisance_parameters dataset') in
      register_datasets rest (S i)
  end.

Definition _register_model_and_data (likelihood_model : Model)
    (data_list : list Dataset) : M unit :=
  let* _ := check_priors (free_parameters likelihood_model) in
  let* _ := modify (with_verbose false) in
  let* _ := modify (with_model likelihood_model) in
  let* _ := modify (with_data_list data_list) in
  let* _ := register_datasets data_list 0 in
  modify (with_is_registered true).

(** *** The unit-cube closures (lines 439-520) *)

Definition unitcube_msg (parameter_name : string) : string :=
  ("The prior you are trying to use for parameter " ++ parameter_name ++
   " is not compatible with sampling from a unitcube")%string.

(** [parameter.prior.from_unit_cube]: the attribute lookup of the [try]
    block; it fails on a prior without that attribute and on [None]. *)
Definition lookup_from_unit_cube (parameter : Param) : option (float -> float) :=
  match prior parameter with
  | Some pr => from_unit_cube pr
  | None => None
  end.

(** The loop shared by the two [prior] closures, on the array [params]:
    it returns the array as the loop left it, with the exception if one was
    raised. *)
Fixpoint prior_loop (items : list (string * Param)) (i : nat)
    (params : list float) : result unit * list float :=
  match items with
  | [] => (Ok tt, params)
  | (parameter_name, parameter) :: rest =>
      match lookup_from_unit_cube parameter with
      | None => (Raise (RuntimeError (unitcube_msg parameter_name)), params)
      | Some f =>
          match params !! i with
          | None => (Raise IndexError, params)
          | Some u => prior_loop rest (S i) (<[i := f u]> params)
          end
      end
  end.

(** [return_copy=True]: [prior(cube)] works on a copy and returns it. *)
Definition prior_copy (cube : list float) (w : World) : result (list float) :=
  match prior_loop (_free_parameters w) 0 cube with
  | (Ok _, params) => Ok params
  | (Raise e, _) => Raise e
  end.

(** [return_copy=False]: [prior(params, ndim, nparams)] mutates [params] and
    returns [None]; the second component is [params] after the call. *)
Definition prior_inplace (params : list float) (w : World) : result unit * list float :=
  prior_loop (_free_parameters w) 0 params.

(** The loop of [loglike] that assigns the trial values. *)
Fixpoint assign_trial_values (items : list (string * Param)) (i : nat)
    (trial_values : list float) : M unit :=
  match items with
  | [] => ret tt
  | _ :: rest =>
      let* x := getitem trial_values i in
      let* _ := assign_value i x in
      assign_trial_values rest (S i) trial_values
  end.

Definition loglike (trial_values : list float) : M float :=
  let* w := get in
  let* _ := assign_trial_values (_free_parameters w) 0 trial_values in
  let* log_like := _log_like trial_values in
  let* w' := get in
  if _verbose w' then
    let n_par := length (_free_parameters w') in
    if (n_par <=? length trial_values)%nat then
      let* _ := modify (log_event (EvPrint (take n_par trial_values) log_like)) in
      ret log_like
    else raise IndexError
  else ret log_like.

Inductive prior_closure : Type :=
| PriorCopy (prior : list float -> World -> result (list float))
| PriorInPlace (prior : list float -> World -> result unit * list float).

Definition _construct_unitcube_posterior (return_copy : bool)
  : M ((list float -> M float) * prior_closure) :=
  let* _ := _update_free_parameters in
  if return_copy then
    ret (loglike, PriorCopy prior_copy)
  else
    let* w := get in
    let n_dim := length (_free_parameters w) in
    match fst (prior_inplace (replicate n_dim 0.5%float) w) with
    | Raise e => raise e
    | Ok _ => ret (loglike, PriorInPlace prior_inplace)
    end.

(** *** What the claims speak about *)

(** The prior density of a parameter at a trial value is strictly positive. *)
Definition prior_positive (np : string * Param) (x : float) : bool :=
  match prior np.2 with
  | Some pr => (0 <? density pr x)%float
  | None => false
  end.

(** The parameter has a prior and its density at the trial value is not
    negative (the data model's invariant on priors). *)
Definition prior_not_negative (np : string * Param) (x : float) : bool :=
  match prior np.2 with
  | Some pr => negb (density pr x <? 0)%float
  | None => false
  end.

(** The prior density of a parameter at a trial value is exactly zero. *)
Definition prior_zero (np : string * Param) (x : float) : bool :=
  match prior np.2 with
  | Some pr => (density pr x =? 0)%float
  | None => false
  end.

(** The calls of [get_log_like] recorded in an event log. *)
Definition get_log_like_calls (evs : list Event) : list string :=
  omap (fun e => match e with EvGetLogLike d => Some d | _ => None end) evs.

(** The spec's [ConfigurationError]: the set-up failures of the sampler,
    raised as [RuntimeError] and as a failed [assert]. *)
Definition ConfigurationError (e : exn) : bool :=
  match e with
  | RuntimeError _ | AssertionError _ => true
  | _ => false
  end.

(** The model after all the nuisance parameters of a dataset were added. *)
Definition add_all_nuisance (m : Model) (d : Dataset) : Model :=
  fold_left (fun m' np => add_external_parameter np.2 m') (nuisance_parameters d) m.

(** Registration as a pure fold: the model that has received every nuisance
    parameter, each dataset being bound to the model as it is at its turn. *)
Fixpoint registered_model (datasets : list Dataset) (m : Model) : Model :=
  match datasets with
  | [] => m
  | d :: rest => registered_model rest (add_all_nuisance m (set_model m d))
  end.

Fixpoint bound_datasets (datasets : list Dataset) (m : Model) : list Dataset :=
  match datasets with
  | [] => []
  | d :: rest => set_model m d :: bound_datasets rest (add_all_nuisance m (set_model m d))
  end.

(** Every nuisance parameter name of the dataset contains the dataset's name. *)
Definition nuisance_names_contain_name (d : Dataset) : bool :=
  forallb (fun np => str_in (name d) np.1) (nuisance_parameters d).

(** No dataset contributes a nuisance parameter whose name lacks the
    dataset's own name. *)
Fixpoint nuisance_names_ok (datasets : list Dataset) (m : Model) : bool :=
  match datasets with
  | [] => true
  | d :: rest =>
      nuisance_names_contain_name (set_model m d) &&
      nuisance_names_ok rest (add_all_nuisance m (set_model m d))
  end.

(** The parameter's prior has the unit-cube transform. *)
Definition has_from_unit_cube (np : string * Param) : bool :=
  match lookup_from_unit_cube np.2 with Some _ => true | None => false end.

(** *** Posterior, prior and likelihood evaluation *)

Lemma drop_cons_inv {A} (l : list A) (i : nat) (x : A) (l' : list A) :
  drop i l = x :: l' -> l !! i = Some x /\ drop (S i) l = l'.
Proof.
  intros H.
  assert (Hx : l !! i = Some x).
  { rewrite <- (Nat.add_0_r i), <- lookup_drop, H. reflexivity. }
  split; [exact Hx|].
  rewrite (drop_S _ _ _ Hx) in H. congruence.
Qed.

(** The two prior loops are the same program. *)
Lemma get_posterior_loop_log_prior_loop items :
  forall i trial_values log_prior w,
    get_posterior_loop items i trial_values log_prior w =
    _log_prior_loop items i trial_values log_prior w.
Proof.
  induction items as [|[parameter_name parameter] rest IH]; intros; simpl.
  - reflexivity.
  - unfold bind.
    destruct (getitem trial_values i w) as [[x|e] w1]; [|reflexivity].
    destruct (call_prior parameter x w1) as [[pv|e] w2]; [|reflexivity].
    destruct (pv =? 0)%float; [reflexivity|].
    destruct (getitem trial_values i w2) as [[x'|e] w3]; [|reflexivity].
    destruct (assign_value i x' w3) as [[[]|e] w4]; [|reflexivity].
    destruct (math_log10 pv w4) as [[l|e] w5]; [|reflexivity].
    apply IH.
Qed.

(** With every prior in support the loop runs to its end. *)
Lemma log_prior_loop_in_support items :
  forall i trial_values log_prior w,
    Forall2 (fun np x => prior_positive np x = true) items (drop i trial_values) ->
    exists log_prior' w',
      _log_prior_loop items i trial_values log_prior w = (Ok (inl log_prior'), w') /\
      events w' = events w /\ _data_list w' = _data_list w.
Proof.
  induction items as [|[parameter_name parameter] rest IH]; intros i tv lp w HF; simpl.
  - exists lp, w. auto.
  - inversion HF as [|np x l l' Hpos HF' Hnp Hdrop]; subst.
    symmetry in Hdrop. apply drop_cons_inv in Hdrop as [Hx Hrest]. subst l'.
    unfold prior_positive in Hpos; simpl in Hpos.
    unfold bind, getitem, call_prior. rewrite Hx. simpl.
    destruct (prior parameter) as [pr|]; [|discriminate]. simpl.
    rewrite (float_pos_neq_zero _ Hpos).
    unfold math_log10. rewrite (float_pos_not_le_zero _ Hpos). simpl.
    destruct (IH (S i) tv (lp + log10 (density pr x))%float
                (with_free_parameters
                   (alter (fun '(n, p) => (n, set_value x p)) i (_free_parameters w)) w)
                HF') as (lp' & w' & Hrun & Hev & Hdl).
    exists lp', w'. split; [exact Hrun|]. split; assumption.
Qed.

(** C1. Decomposition law: when every free parameter's prior density at its
    trial value is strictly positive, [get_posterior] returns the sum of
    [_log_prior] and of [_log_like] on the same vector, the likelihood being
    evaluated on the parameter values that the prior evaluation has assigned;
    an exception of the likelihood evaluation is the exception of
    [get_posterior]. *)
Theorem get_posterior_decomposition (w : World) (trial_values : list float) :
  Forall2 (fun np x => prior_positive np x = true) (_free_parameters w) trial_values ->
  exists log_prior w1,
    _log_prior trial_values w = (Ok log_prior, w1) /\
    get_posterior trial_values w =
      match _log_like trial_values w1 with
      | (Ok log_like, w2) => (Ok (log_prior + log_like)%float, w2)
      | (Raise e, w2) => (Raise e, w2)
      end.
Proof.
  intros HF.
  destruct (log_prior_loop_in_support (_free_parameters w) 0 trial_values 0%float w)
    as (lp & w1 & Hrun & _ & _); [rewrite drop_0; exact HF|].
  exists lp, w1. split.
  - unfold _log_prior, bind, get. rewrite Hrun. reflexivity.
  - unfold get_posterior, bind, get.
    rewrite (Forall2_length _ _ _ HF), Nat.eqb_refl. simpl.
    rewrite get_posterior_loop_log_prior_loop, Hrun.
    destruct (_log_like trial_values w1) as [[ll|e] w2]; [|reflexivity].
    unfold ret. rewrite float_add_comm. reflexivity.
Qed.

(** A zero density met by the loop ends it with minus infinity, and the
    event log is as it was. *)
Lemma get_posterior_loop_zero items :
  forall i trial_values log_prior w,
    Forall2 (fun np x => prior_not_negative np x = true) items (drop i trial_values) ->
    Exists (fun npx => prior_zero npx.1 npx.2 = true) (zip items (drop i trial_values)) ->
    exists w',
      get_posterior_loop items i trial_values log_prior w = (Ok (inr (- py_inf)%float), w') /\
      events w' = events w.
Proof.
  induction items as [|[parameter_name parameter] rest IH]; intros i tv lp w HF HE; simpl.
  - inversion HE.
  - inversion HF as [|np x l l' Hnn HF' Hnp Hdrop]; subst.
    rewrite <- Hdrop in HE. simpl in HE.
    symmetry in Hdrop. apply drop_cons_inv in Hdrop as [Hx Hrest]. subst l'.
    unfold prior_not_negative in Hnn; simpl in Hnn.
    unfold bind, getitem, call_prior. rewrite Hx. simpl.
    destruct (prior parameter) as [pr|] eqn:Hpr; [|discriminate]. simpl.
    destruct (density pr x =? 0)%float eqn:Hz.
    + exists w. split; reflexivity.
    + assert (Hle : (density pr x <=? 0)%float = false).
      { destruct (density pr x <=? 0)%float eqn:Hle; [|reflexivity].
        apply negb_true_iff in Hnn.
        rewrite (float_not_neg_le_zero _ Hnn Hle) in Hz. discriminate. }
      unfold math_log10. rewrite Hle. simpl.
      apply Exists_cons in HE as [HE|HE].
      { unfold prior_zero in HE. simpl in HE. rewrite Hpr in HE. congruence. }
      destruct (IH (S i) tv (lp + log10 (density pr x))%float
                  (with_free_parameters
                     (alter (fun '(n, p) => (n, set_value x p)) i (_free_parameters w)) w)
                  HF' HE) as (w' & Hrun & Hev).
      exists w'. split; [exact Hrun | exact Hev].
Qed.

(** C2. Out-of-support short circuit: when the priors are densities (present
    and never negative) and some free parameter's prior density at its trial
    value is exactly zero, [get_posterior] and [_log_prior] both return minus
    infinity, and [get_posterior] leaves the event log as it was: no dataset's
    [get_log_like] has been called. *)
Theorem zero_prior_short_circuit (w : World) (trial_values : list float) :
  Forall2 (fun np x => prior_not_negative np x = true) (_free_parameters w) trial_values ->
  Exists (fun npx => prior_zero npx.1 npx.2 = true) (zip (_free_parameters w) trial_values) ->
  (exists w', get_posterior trial_values w = (Ok (- py_inf)%float, w') /\
              events w' = events w /\
              get_log_like_calls (events w') = get_log_like_calls (events w)) /\
  (exists w', _log_prior trial_values w = (Ok (- py_inf)%float, w')).
Proof.
  intros HF HE.
  destruct (get_posterior_loop_zero (_free_parameters w) 0 trial_values 0%float w)
    as (w' & Hrun & Hev); [rewrite drop_0; exact HF | rewrite drop_0; exact HE |].
  split; exists w'.
  - unfold get_posterior, bind, get.
    rewrite (Forall2_length _ _ _ HF), Nat.eqb_refl. simpl.
    rewrite Hrun. unfold ret. rewrite Hev. auto.
  - unfold _log_prior, bind, get.
    rewrite <- get_posterior_loop_log_prior_loop, Hrun. reflexivity.
Qed.

(** The comprehension over the datasets: all of them answer. *)
Lemma log_like_values_all_ok datasets :
  forall values w,
    Forall2 (fun d v => get_log_like d (_free_parameters w) = Ok v) datasets values ->
    exists w',
      log_like_values datasets w = (Ok values, w') /\
      events w' = events w ++ map (fun d => EvGetLogLike (name d)) datasets /\
      _free_parameters w' = _free_parameters w.
Proof.
  induction datasets as [|d rest IH]; intros values w HF.
  - inversion HF; subst. exists w. simpl. rewrite app_nil_r. auto.
  - inversion HF as [|d' v ds vs Hd HF' E1 E2]; subst.
    simpl. unfold bind, modify, get. simpl. rewrite Hd.
    destruct (IH vs (log_event (EvGetLogLike (name d)) w)) as (w' & Hrun & Hev & Hfp);
      [exact HF'|].
    rewrite Hrun. exists w'. split; [reflexivity|].
    split; [|exact Hfp].
    rewrite Hev. simpl. rewrite <- app_assoc. reflexivity.
Qed.

(** The comprehension over the datasets: the first exception ends it. *)
Lemma log_like_values_first_raise ds1 :
  forall d ds2 e w,
    Forall (fun d' => is_Ok (get_log_like d' (_free_parameters w)) = true) ds1 ->
    get_log_like d (_free_parameters w) = Raise e ->
    exists w',
      log_like_values (ds1 ++ d :: ds2) w = (Raise e, w') /\
      events w' = events w ++ map (fun d => EvGetLogLike (name d)) (ds1 ++ [d]).
Proof.
  induction ds1 as [|d1 rest IH]; intros d ds2 e w HF Hd.
  - simpl. unfold bind, modify, get. simpl. rewrite Hd.
    eexists. split; reflexivity.
  - inversion HF as [|d' ds Hd1 HF' E]; subst.
    simpl. unfold bind, modify, get. simpl.
    destruct (get_log_like d1 (_free_parameters w)) as [v|e1]; [|discriminate].
    destruct (IH d ds2 e (log_event (EvGetLogLike (name d1)) w) HF' Hd)
      as (w' & Hrun & Hev).
    rewrite Hrun. exists w'. split; [reflexivity|].
    rewrite Hev. simpl. rewrite <- app_assoc. reflexivity.
Qed.

(** C8. [_log_like] turns a [ModelAssertionViolation] of a dataset into minus
    infinity and lets every other exception through unchanged; when all
    datasets answer and the sum is not finite it logs the warning and returns
    minus infinity, and otherwise it returns the sum without a warning. *)
Theorem log_like_error_handling (w : World) (trial_values : list float) :
  (forall ds1 d ds2 e,
     _data_list w = ds1 ++ d :: ds2 ->
     Forall (fun d' => is_Ok (get_log_like d' (_free_parameters w)) = true) ds1 ->
     get_log_like d (_free_parameters w) = Raise e ->
     exists w',
       _log_like trial_values w =
         (match e with
          | ModelAssertionViolation => Ok (- py_inf)%float
          | _ => Raise e
          end, w') /\
       events w' = events w ++ map (fun d => EvGetLogLike (name d)) (ds1 ++ [d])) /\
  (forall values,
     Forall2 (fun d v => get_log_like d (_free_parameters w) = Ok v) (_data_list w) values ->
     exists w',
       _log_like trial_values w =
         (Ok (if np_isfinite (np_sum values) then np_sum values else (- py_inf)%float), w') /\
       events w' =
         events w ++ map (fun d => EvGetLogLike (name d)) (_data_list w) ++
         (if np_isfinite (np_sum values) then []
          else [EvWarnLikelihoodIsInfinite trial_values])).
Proof.
  split.
  - intros ds1 d ds2 e Hdl HF Hd.
    destruct (log_like_values_first_raise ds1 d ds2 e w HF Hd) as (w' & Hrun & Hev).
    exists w'. unfold _log_like. rewrite Hdl, Hrun.
    split; [destruct e; reflexivity | exact Hev].
  - intros values HF.
    destruct (log_like_values_all_ok (_data_list w) values w HF) as (w' & Hrun & Hev & _).
    unfold _log_like. rewrite Hrun.
    destruct (np_isfinite (np_sum values)); simpl.
    + exists w'. split; [reflexivity|]. rewrite Hev, app_nil_r. reflexivity.
    + eexists. split; [reflexivity|]. simpl. rewrite Hev, app_assoc. reflexivity.
Qed.

(** *** Registration *)

Lemma check_priors_ok items w :
  forallb (fun np => has_prior np.2) items = true ->
  check_priors items w = (Ok tt, w).
Proof.
  induction items as [|[n p] rest IH]; simpl; intros H; [reflexivity|].
  apply andb_true_iff in H as [Hp Hrest]. rewrite Hp. simpl. auto.
Qed.

Lemma check_priors_missing items w :
  forallb (fun np => has_prior np.2) items = false ->
  check_priors items w = (Raise (RuntimeError missing_prior_msg), w).
Proof.
  induction items as [|[n p] rest IH]; simpl; intros H; [discriminate|].
  destruct (has_prior p); simpl in *; auto.
Qed.

Lemma add_nuisance_parameters_ok dataset_name items :
  forall w,
    forallb (fun np => str_in dataset_name np.1) items = true ->
    add_nuisance_parameters dataset_name items w =
      (Ok tt,
       with_model (fold_left (fun m' np => add_external_parameter np.2 m') items
                     (_likelihood_model w)) w).
Proof.
  induction items as [|[n p] rest IH]; simpl; intros w H.
  - destruct w; reflexivity.
  - apply andb_true_iff in H as [Hn Hrest]. rewrite Hn. simpl.
    unfold bind, modify. rewrite (IH _ Hrest). reflexivity.
Qed.

Lemma add_nuisance_parameters_bad dataset_name items :
  forall w,
    forallb (fun np => str_in dataset_name np.1) items = false ->
    exists w',
      add_nuisance_parameters dataset_name items w =
        (Raise (AssertionError nuisance_name_msg), w') /\
      _is_registered w' = _is_registered w.
Proof.
  induction items as [|[n p] rest IH]; simpl; intros w H; [discriminate|].
  destruct (str_in dataset_name n); simpl in *.
  - unfold bind, modify.
    destruct (IH (with_model (add_external_parameter p (_likelihood_model w)) w) H)
      as (w' & Hrun & Hreg).
    rewrite Hrun. exists w'. split; [reflexivity | exact Hreg].
  - exists w. split; reflexivity.
Qed.

Lemma register_datasets_ok datasets :
  forall pre w,
    _data_list w = pre ++ datasets ->
    nuisance_names_ok datasets (_likelihood_model w) = true ->
    register_datasets datasets (length pre) w =
      (Ok tt,
       with_data_list (pre ++ bound_datasets datasets (_likelihood_model w))
         (with_model (registered_model datasets (_likelihood_model w)) w)).
Proof.
  induction datasets as [|d rest IH]; simpl; intros pre w Hdl Hok.
  - rewrite app_nil_r in *. rewrite <- Hdl. destruct w; reflexivity.
  - apply andb_true_iff in Hok as [Hd Hrest].
    unfold bind, get, modify. simpl.
    rewrite add_nuisance_parameters_ok by exact Hd. simpl.
    rewrite Hdl, insert_app_r_alt, Nat.sub_diag by lia. simpl.
    specialize (IH (pre ++ [set_model (_likelihood_model w) d])).
    rewrite length_app, Nat.add_1_r in IH. simpl in IH.
    rewrite IH; simpl.
    + rewrite <- app_assoc. reflexivity.
    + rewrite <- app_assoc. reflexivity.
    + exact Hrest.
Qed.

Lemma register_datasets_bad datasets :
  forall i w,
    nuisance_names_ok datasets (_likelihood_model w) = false ->
    exists w',
      register_datasets datasets i w = (Raise (AssertionError nuisance_name_msg), w') /\
      _is_registered w' = _is_registered w.
Proof.
  induction datasets as [|d rest IH]; simpl; intros i w Hbad; [discriminate|].
  unfold bind, get, modify. simpl.
  destruct (nuisance_names_contain_name (set_model (_likelihood_model w) d)) eqn:Hd;
    simpl in Hbad.
  - rewrite add_nuisance_parameters_ok by exact Hd. simpl.
    edestruct IH as (w' & Hrun & Hreg); [|rewrite Hrun; exists w'; split;
      [reflexivity | exact Hreg]].
    exact Hbad.
  - edestruct add_nuisance_parameters_bad as (w' & Hrun & Hreg); [exact Hd|].
    rewrite Hrun. exists w'. split; [reflexivity | exact Hreg].
Qed.

(** C7. Registration raises the missing-prior error, before anything is
    touched, when a free model parameter has no prior; it fails with a
    configuration error when a dataset contributes a nuisance parameter whose
    name does not contain the dataset's name; otherwise it succeeds, every
    nuisance parameter has been added to the model and the registered flag is
    set. *)
Theorem register_model_and_data_outcomes (likelihood_model : Model)
    (data_list : list Dataset) (w : World) :
  (forallb (fun np => has_prior np.2) (free_parameters likelihood_model) = false ->
     _register_model_and_data likelihood_model data_list w =
       (Raise (RuntimeError missing_prior_msg), w) /\
     ConfigurationError (RuntimeError missing_prior_msg) = true) /\
  (nuisance_names_ok data_list likelihood_model = false ->
     exists e w',
       _register_model_and_data likelihood_model data_list w = (Raise e, w') /\
       ConfigurationError e = true /\
       _is_registered w' = _is_registered w) /\
  (forallb (fun np => has_prior np.2) (free_parameters likelihood_model) = true ->
   nuisance_names_ok data_list likelihood_model = true ->
     _register_model_and_data likelihood_model data_list w =
       (Ok tt,
        {| _likelihood_model := registered_model data_list likelihood_model;
           _data_list := bound_datasets data_list likelihood_model;
           _free_parameters := _free_parameters w;
           _verbose := false;
           _is_registered := true;
           events := events w |})).
Proof.
  unfold _register_model_and_data, bind, modify.
  split; [|split].
  - intros Hp. rewrite check_priors_missing by exact Hp. auto.
  - intros Hbad.
    destruct (forallb (fun np => has_prior np.2) (free_parameters likelihood_model)) eqn:Hp.
    + rewrite check_priors_ok by exact Hp.
      edestruct (register_datasets_bad data_list 0) as (w' & Hrun & Hreg);
        [|rewrite Hrun; exists (AssertionError nuisance_name_msg), w'; repeat split;
          exact Hreg].
      exact Hbad.
    + rewrite check_priors_missing by exact Hp.
      exists (RuntimeError missing_prior_msg), w. auto.
  - intros Hp Hok. rewrite check_priors_ok by exact Hp.
    rewrite (register_datasets_ok data_list []) by (try reflexivity; exact Hok).
    reflexivity.
Qed.

(** *** The unit-cube prior transform *)

(** When every prior has the transform, the loop maps the coordinate of each
    parameter through its transform and leaves the rest of the array alone. *)
Lemma prior_loop_ok items :
  forall i params,
    forallb has_from_unit_cube items = true ->
    i + length items <= length params ->
    exists params',
      prior_loop items i params = (Ok tt, params') /\
      length params' = length params /\
      (forall k np f u,
         items !! k = Some np -> lookup_from_unit_cube np.2 = Some f ->
         params !! (i + k) = Some u -> params' !! (i + k) = Some (f u)) /\
      (forall j, j < i \/ i + length items <= j -> params' !! j = params !! j).
Proof.
  induction items as [|[n p] rest IH]; simpl; intros i params Hall Hlen.
  - exists params. repeat split; auto. intros k np f u Hk. discriminate.
  - apply andb_true_iff in Hall as [Hp Hrest].
    unfold has_from_unit_cube in Hp. simpl in Hp.
    destruct (lookup_from_unit_cube p) as [f|] eqn:Hf; [|discriminate].
    destruct (params !! i) as [u|] eqn:Hu;
      [|apply lookup_ge_None in Hu; lia].
    destruct (IH (S i) (<[i := f u]> params) Hrest) as (params' & Hrun & Hl & Hmap & Hframe).
    { rewrite length_insert. lia. }
    exists params'. split; [exact Hrun|].
    rewrite length_insert in Hl. split; [exact Hl|]. split.
    + intros k np f' u' Hk Hf' Hu'. destruct k as [|k]; simpl in Hk.
      * injection Hk as <-. simpl in Hf'. rewrite Nat.add_0_r in *.
        rewrite Hframe by lia.
        rewrite list_lookup_insert_eq by (apply lookup_lt_Some in Hu; exact Hu).
        congruence.
      * replace (i + S k) with (S i + k) in * by lia.
        apply (Hmap k np f' u' Hk Hf').
        rewrite list_lookup_insert_ne by lia. exact Hu'.
    + intros j Hj. rewrite Hframe by lia.
      apply list_lookup_insert_ne. lia.
Qed.

(** The first parameter whose prior lacks the transform stops the loop with
    the error that names it. *)
Lemma prior_loop_missing pre :
  forall i params parameter_name parameter post,
    forallb has_from_unit_cube pre = true ->
    lookup_from_unit_cube parameter = None ->
    i + length pre <= length params ->
    fst (prior_loop (pre ++ (parameter_name, parameter) :: post) i params) =
      Raise (RuntimeError (unitcube_msg parameter_name)).
Proof.
  induction pre as [|[n p] rest IH]; simpl; intros i params pn pa post Hall Hnone Hlen.
  - rewrite Hnone. reflexivity.
  - apply andb_true_iff in Hall as [Hp Hrest].
    unfold has_from_unit_cube in Hp. simpl in Hp.
    destruct (lookup_from_unit_cube p) as [f|]; [|discriminate].
    destruct (params !! i) as [u|] eqn:Hu;
      [|apply lookup_ge_None in Hu; lia].
    apply IH; auto. rewrite length_insert. lia.
Qed.

(** C9 (as the code has it). Both [prior] closures map the unit-cube
    coordinate of every free parameter through that parameter's
    [from_unit_cube] and fail with the error naming the first parameter whose
    prior lacks it.  [_construct_unitcube_posterior] refreshes the free
    parameters; with [return_copy=False] it runs the in-place closure once on
    a cube of 0.5 and so fails at once on a missing transform; with
    [return_copy=True] it performs no dry run and always returns the
    closures. *)
Theorem construct_unitcube_posterior_outcomes (w : World) :
  (forall cube,
     forallb has_from_unit_cube (_free_parameters w) = true ->
     length (_free_parameters w) <= length cube ->
     exists params',
       prior_copy cube w = Ok params' /\
       prior_inplace cube w = (Ok tt, params') /\
       length params' = length cube /\
       (forall k np f u,
          _free_parameters w !! k = Some np -> lookup_from_unit_cube np.2 = Some f ->
          cube !! k = Some u -> params' !! k = Some (f u)) /\
       (forall j, length (_free_parameters w) <= j -> params' !! j = cube !! j)) /\
  (forall cube pre parameter_name parameter post,
     _free_parameters w = pre ++ (parameter_name, parameter) :: post ->
     forallb has_from_unit_cube pre = true ->
     lookup_from_unit_cube parameter = None ->
     length pre <= length cube ->
     prior_copy cube w = Raise (RuntimeError (unitcube_msg parameter_name)) /\
     fst (prior_inplace cube w) = Raise (RuntimeError (unitcube_msg parameter_name))) /\
  (forallb has_from_unit_cube (free_parameters (_likelihood_model w)) = true ->
     _construct_unitcube_posterior false w =
       (Ok (loglike, PriorInPlace prior_inplace),
        with_free_parameters (free_parameters (_likelihood_model w)) w)) /\
  (forall pre parameter_name parameter post,
     free_parameters (_likelihood_model w) = pre ++ (parameter_name, parameter) :: post ->
     forallb has_from_unit_cube pre = true ->
     lookup_from_unit_cube parameter = None ->
     _construct_unitcube_posterior false w =
       (Raise (RuntimeError (unitcube_msg parameter_name)),
        with_free_parameters (free_parameters (_likelihood_model w)) w)) /\
  _construct_unitcube_posterior true w =
    (Ok (loglike, PriorCopy prior_copy),
     with_free_parameters (free_parameters (_likelihood_model w)) w).
Proof.
  split; [|split; [|split; [|split]]].
  - intros cube Hall Hlen.
    destruct (prior_loop_ok (_free_parameters w) 0 cube Hall)
      as (params' & Hrun & Hl & Hmap & Hframe); [simpl; exact Hlen|].
    exists params'. unfold prior_copy, prior_inplace. rewrite Hrun.
    split; [reflexivity|]. split; [reflexivity|]. split; [exact Hl|]. split.
    + intros k np f u Hk Hf Hu. apply (Hmap k np f u Hk Hf Hu).
    + intros j Hj. apply Hframe. right. simpl. exact Hj.
  - intros cube pre parameter_name parameter post Hfps Hall Hnone Hlen.
    pose proof (prior_loop_missing pre 0 cube parameter_name parameter post
                  Hall Hnone Hlen) as Hm.
    unfold prior_copy, prior_inplace. rewrite Hfps.
    destruct (prior_loop _ 0 cube) as [[[]|e] params']; simpl in Hm.
    + discriminate Hm.
    + injection Hm as ->. split; reflexivity.
  - intros Hall.
    unfold _construct_unitcube_posterior, bind, _update_free_parameters, modify, get.
    simpl.
    destruct (prior_loop_ok (free_parameters (_likelihood_model w)) 0
                (replicate (length (free_parameters (_likelihood_model w))) 0.5%float) Hall)
      as (params' & Hrun & _); [rewrite length_replicate; simpl; lia|].
    unfold prior_inplace. simpl. rewrite Hrun. reflexivity.
  - intros pre parameter_name parameter post Hfps Hall Hnone.
    unfold _construct_unitcube_posterior, bind, _update_free_parameters, modify, get.
    simpl. unfold prior_inplace. simpl.
    pose proof (prior_loop_missing pre 0
                  (replicate (length (free_parameters (_likelihood_model w))) 0.5%float)
                  parameter_name parameter post Hall Hnone) as Hm.
    rewrite <- Hfps in Hm. rewrite Hm; [reflexivity|].
    rewrite length_replicate, Hfps, length_app. simpl. lia.
  - reflexivity.
Qed.

(** *** The side channel: what the prior loop leaves in the live parameters *)

(** [parameter.value = x] on one entry of the ordered dictionary. *)
Definition bind_value (np : string * Param) (x : float) : string * Param :=
  (np.1, set_value x np.2).

Lemma with_free_parameters_id (w : World) (fps : list (string * Param)) :
  _free_parameters w = fps -> with_free_parameters fps w = w.
Proof. intros <-. destruct w; reflexivity. Qed.

(** Over a stretch of parameters whose densities are positive the loop
    assigns every trial value and goes on with the rest. *)
Lemma log_prior_loop_prefix (pre : list (string * Param)) (xs : list float) :
  Forall2 (fun np x => prior_positive np x = true) pre xs ->
  forall rest done w trial_values log_prior,
    _free_parameters w = done ++ pre ++ rest ->
    (forall k x, xs !! k = Some x -> trial_values !! (length done + k) = Some x) ->
    exists log_prior',
      _log_prior_loop (pre ++ rest) (length done) trial_values log_prior w =
      _log_prior_loop rest (length done + length pre) trial_values log_prior'
        (with_free_parameters (done ++ zip_with bind_value pre xs ++ rest) w).
Proof.
  induction 1 as [|np x pre xs Hpos HF IH]; intros rest done w tv lp Hfps Htv.
  - exists lp. simpl. rewrite Nat.add_0_r.
    rewrite with_free_parameters_id by exact Hfps. reflexivity.
  - destruct np as [parameter_name parameter].
    unfold prior_positive in Hpos. simpl in Hpos.
    destruct (prior parameter) as [pr|] eqn:Hpr; [|discriminate].
    pose proof (Htv 0 x eq_refl) as Hx. rewrite Nat.add_0_r in Hx.
    cbn [app _log_prior_loop].
    unfold bind at 1. unfold getitem at 1. rewrite Hx. unfold ret at 1.
    unfold bind at 1. unfold call_prior at 1. rewrite Hpr. unfold ret at 1.
    rewrite (float_pos_neq_zero _ Hpos).
    unfold bind at 1. unfold getitem at 1. rewrite Hx. unfold ret at 1.
    unfold bind at 1. unfold assign_value, modify.
    unfold bind at 1. unfold math_log10.
    rewrite (float_pos_not_le_zero _ Hpos). unfold ret at 1.
    rewrite Hfps, alter_app_r_alt, Nat.sub_diag by lia. simpl alter.
    destruct (IH rest (done ++ [(parameter_name, set_value x parameter)])
                (with_free_parameters
                   (done ++ (parameter_name, set_value x parameter) :: pre ++ rest) w)
                tv (lp + log10 (density pr x))%float) as [lp' Hrun].
    + simpl. rewrite <- app_assoc. reflexivity.
    + intros k x' Hk. rewrite length_app. simpl.
      replace (length done + 1 + k) with (length done + S k) by lia.
      apply Htv. exact Hk.
    + exists lp'. rewrite length_app in Hrun. simpl in Hrun.
      replace (length done + 1) with (S (length done)) in Hrun by lia.
      rewrite Hrun. simpl.
      replace (S (length done + length pre)) with (length done + S (length pre)) by lia.
      rewrite <- app_assoc. reflexivity.
Qed.

Lemma zip_with_bind_value (fps : list (string * Param)) (xs : list float) :
  length fps = length xs ->
  map (fun np => value np.2) (zip_with bind_value fps xs) = xs /\
  map fst (zip_with bind_value fps xs) = map fst fps /\
  map (fun np => prior np.2) (zip_with bind_value fps xs) = map (fun np => prior np.2) fps.
Proof.
  revert xs. induction fps as [|np fps IH]; intros [|x xs] Hlen; simpl in *;
    try discriminate; [auto|].
  destruct (IH xs) as (H1 & H2 & H3); [lia|].
  rewrite H1, H2, H3. auto.
Qed.

(** [_log_like] reads the parameters and writes the event log only. *)
Lemma log_like_values_frame (datasets : list Dataset) :
  forall w,
    _free_parameters (log_like_values datasets w).2 = _free_parameters w /\
    _verbose (log_like_values datasets w).2 = _verbose w /\
    _data_list (log_like_values datasets w).2 = _data_list w.
Proof.
  induction datasets as [|d rest IH]; intros w; simpl; [auto|].
  unfold bind, modify, get. simpl.
  destruct (get_log_like d (_free_parameters w)) as [v|e]; simpl; [|auto].
  specialize (IH (log_event (EvGetLogLike (name d)) w)).
  destruct (log_like_values rest (log_event (EvGetLogLike (name d)) w)) as [[vs|e] w'];
    simpl in *; exact IH.
Qed.

Lemma log_like_frame (trial_values : list float) (w : World) :
  _free_parameters (_log_like trial_values w).2 = _free_parameters w /\
  _verbose (_log_like trial_values w).2 = _verbose w /\
  _data_list (_log_like trial_values w).2 = _data_list w.
Proof.
  unfold _log_like.
  pose proof (log_like_values_frame (_data_list w) w) as H.
  destruct (log_like_values (_data_list w) w) as [[values|e] w']; simpl in H.
  - destruct (negb (np_isfinite (np_sum values))); simpl; exact H.
  - destruct e; simpl; exact H.
Qed.

(** X1. When every prior density is positive, [_log_prior] returns and
    leaves each free parameter holding its trial value, with names and
    priors as they were and nothing else changed; after [get_posterior] the
    parameters hold the same values. *)
Theorem log_prior_binds_trial_values (w : World) (trial_values : list float) :
  Forall2 (fun np x => prior_positive np x = true) (_free_parameters w) trial_values ->
  (exists log_prior,
     _log_prior trial_values w =
       (Ok log_prior,
        with_free_parameters (zip_with bind_value (_free_parameters w) trial_values) w)) /\
  _free_parameters (get_posterior trial_values w).2 =
    zip_with bind_value (_free_parameters w) trial_values /\
  map (fun np => value np.2) (zip_with bind_value (_free_parameters w) trial_values) =
    trial_values /\
  map fst (zip_with bind_value (_free_parameters w) trial_values) =
    map fst (_free_parameters w) /\
  map (fun np => prior np.2) (zip_with bind_value (_free_parameters w) trial_values) =
    map (fun np => prior np.2) (_free_parameters w).
Proof.
  intros HF.
  destruct (log_prior_loop_prefix (_free_parameters w) trial_values HF [] [] w
              trial_values 0%float) as [lp Hrun].
  { simpl. rewrite app_nil_r. reflexivity. }
  { intros k x Hk. exact Hk. }
  simpl in Hrun. rewrite !app_nil_r in Hrun.
  split; [|split; [|apply zip_with_bind_value; apply (Forall2_length _ _ _ HF)]].
  - exists lp. unfold _log_prior, bind, get. rewrite Hrun. reflexivity.
  - unfold get_posterior, bind, get.
    rewrite (Forall2_length _ _ _ HF), Nat.eqb_refl. simpl.
    rewrite get_posterior_loop_log_prior_loop, Hrun. simpl.
    pose proof (log_like_frame trial_values
                  (with_free_parameters
                     (zip_with bind_value (_free_parameters w) trial_values) w))
      as (Hfp & _).
    destruct (_log_like trial_values
                (with_free_parameters
                   (zip_with bind_value (_free_parameters w) trial_values) w))
      as [[ll|e] w2]; simpl in *; exact Hfp.
Qed.

(** X2. The short circuit leaves a mixed state: when the first parameter
    out of support is the one after [pre], [get_posterior] returns minus
    infinity with the parameters of [pre] holding their trial values and all
    the others, from the offending one on, holding their old values. *)
Theorem zero_prior_leaves_mixed_state (w : World)
    (pre post : list (string * Param)) (parameter_name : string) (parameter : Param)
    (pr : Prior) (xs ys : list float) (x : float) :
  _free_parameters w = pre ++ (parameter_name, parameter) :: post ->
  Forall2 (fun np x => prior_positive np x = true) pre xs ->
  prior parameter = Some pr ->
  (density pr x =? 0)%float = true ->
  length ys = length post ->
  get_posterior (xs ++ x :: ys) w =
    (Ok (- py_inf)%float,
     with_free_parameters (zip_with bind_value pre xs ++ (parameter_name, parameter) :: post) w).
Proof.
  intros Hfps HF Hpr Hzero Hlen.
  destruct (log_prior_loop_prefix pre xs HF ((parameter_name, parameter) :: post) [] w
              (xs ++ x :: ys) 0%float) as [lp Hrun].
  { exact Hfps. }
  { intros k x' Hk. simpl. apply lookup_app_l_Some. exact Hk. }
  simpl in Hrun.
  unfold get_posterior, bind, get.
  rewrite Hfps, !length_app. simpl. rewrite (Forall2_length _ _ _ HF), Hlen, Nat.eqb_refl.
  simpl. rewrite <- Hfps at 1.
  rewrite get_posterior_loop_log_prior_loop. rewrite Hfps at 1. rewrite Hrun.
  simpl. unfold bind, getitem.
  rewrite (Forall2_length _ _ _ HF).
  rewrite (list_lookup_middle xs ys x (length xs) eq_refl). unfold ret at 1.
  unfold call_prior. rewrite Hpr. unfold ret at 1. rewrite Hzero. reflexivity.
Qed.

(** X3. A negative density is not treated as out of support: the loop has
    already assigned the trial value when [math.log10] raises, so
    [get_posterior] ends with a [ValueError], the offending parameter holds
    its trial value, and no dataset has been asked. *)
Theorem negative_prior_raises_value_error (w : World)
    (pre post : list (string * Param)) (parameter_name : string) (parameter : Param)
    (pr : Prior) (xs ys : list float) (x : float) :
  _free_parameters w = pre ++ (parameter_name, parameter) :: post ->
  Forall2 (fun np x => prior_positive np x = true) pre xs ->
  prior parameter = Some pr ->
  (density pr x <? 0)%float = true ->
  length ys = length post ->
  get_posterior (xs ++ x :: ys) w =
    (Raise ValueError,
     with_free_parameters
       (zip_with bind_value pre xs ++ (parameter_name, set_value x parameter) :: post) w).
Proof.
  intros Hfps HF Hpr Hneg Hlen.
  destruct (log_prior_loop_prefix pre xs HF ((parameter_name, parameter) :: post) [] w
              (xs ++ x :: ys) 0%float) as [lp Hrun].
  { exact Hfps. }
  { intros k x' Hk. simpl. apply lookup_app_l_Some. exact Hk. }
  simpl in Hrun.
  unfold get_posterior, bind, get.
  rewrite Hfps, !length_app. simpl. rewrite (Forall2_length _ _ _ HF), Hlen, Nat.eqb_refl.
  simpl. rewrite <- Hfps at 1.
  rewrite get_posterior_loop_log_prior_loop. rewrite Hfps at 1. rewrite Hrun.
  simpl. unfold bind, getitem.
  rewrite (Forall2_length _ _ _ HF).
  rewrite (list_lookup_middle xs ys x (length xs) eq_refl). unfold ret at 1.
  unfold call_prior. rewrite Hpr. unfold ret at 1.
  rewrite (float_neg_neq_zero _ Hneg).
  unfold ret at 1. unfold assign_value, modify. unfold math_log10.
  rewrite (float_neg_le_zero _ Hneg). unfold raise. simpl.
  rewrite alter_app_r_alt by (rewrite length_zip_with, (Forall2_length _ _ _ HF); lia).
  rewrite length_zip_with, (Forall2_length _ _ _ HF), Nat.min_id, Nat.sub_diag.
  reflexivity.
Qed.

(** X4. The trial values given to [_log_like] enter nothing but the text
    of its warning: the returned value and the datasets that are asked are
    the same for any two vectors, and the live parameters are left as they
    were (the values must have been assigned before the call). *)
Theorem log_like_ignores_trial_values (w : World) (trial_values other_values : list float) :
  fst (_log_like trial_values w) = fst (_log_like other_values w) /\
  _free_parameters (_log_like trial_values w).2 = _free_parameters w /\
  get_log_like_calls (events (_log_like trial_values w).2) =
    get_log_like_calls (events (_log_like other_values w).2).
Proof.
  split; [|split; [apply log_like_frame|]]; unfold _log_like;
    destruct (log_like_values (_data_list w) w) as [[values|e] w'].
  - destruct (negb (np_isfinite (np_sum values))); reflexivity.
  - destruct e; reflexivity.
  - destruct (negb (np_isfinite (np_sum values))); simpl; [|reflexivity].
    unfold get_log_like_calls. rewrite !omap_app. reflexivity.
  - destruct e; reflexivity.
Qed.

(** The loop of [loglike] assigns every trial value. *)
Lemma assign_trial_values_binds (items : list (string * Param)) :
  forall xs done w trial_values,
    _free_parameters w = done ++ items ->
    length items = length xs ->
    (forall k x, xs !! k = Some x -> trial_values !! (length done + k) = Some x) ->
    assign_trial_values items (length done) trial_values w =
      (Ok tt, with_free_parameters (done ++ zip_with bind_value items xs) w).
Proof.
  induction items as [|[n p] items IH]; intros [|x xs] done w tv Hfps Hlen Htv;
    simpl in Hlen; try discriminate.
  - simpl. rewrite app_nil_r in *. rewrite with_free_parameters_id by exact Hfps.
    reflexivity.
  - pose proof (Htv 0 x eq_refl) as Hx. rewrite Nat.add_0_r in Hx.
    cbn [assign_trial_values]. unfold bind at 1. unfold getitem. rewrite Hx.
    unfold ret at 1. unfold bind at 1. unfold assign_value, modify.
    rewrite Hfps, alter_app_r_alt, Nat.sub_diag by lia. simpl alter.
    specialize (IH xs (done ++ [(n, set_value x p)])
                  (with_free_parameters (done ++ (n, set_value x p) :: items) w) tv).
    rewrite length_app in IH. simpl in IH.
    replace (length done + 1) with (S (length done)) in IH by lia.
    rewrite IH.
    + simpl. rewrite <- app_assoc. reflexivity.
    + rewrite <- app_assoc. reflexivity.
    + lia.
    + intros k x' Hk. replace (S (length done) + k) with (length done + S k) by lia.
      apply Htv. exact Hk.
Qed.

(** X5. With the verbose flag off and every prior density positive, the
    posterior is the log-prior plus what the unit-cube [loglike] closure
    returns for the same vector, and both leave the same state. *)
Theorem posterior_is_prior_plus_loglike (w : World) (trial_values : list float) :
  _verbose w = false ->
  Forall2 (fun np x => prior_positive np x = true) (_free_parameters w) trial_values ->
  exists log_prior,
    fst (_log_prior trial_values w) = Ok log_prior /\
    get_posterior trial_values w =
      match loglike trial_values w with
      | (Ok log_like, w') => (Ok (log_prior + log_like)%float, w')
      | (Raise e, w') => (Raise e, w')
      end.
Proof.
  intros Hverbose HF.
  destruct (log_prior_loop_prefix (_free_parameters w) trial_values HF [] [] w
              trial_values 0%float) as [lp Hrun].
  { simpl. rewrite app_nil_r. reflexivity. }
  { intros k x Hk. exact Hk. }
  simpl in Hrun. rewrite !app_nil_r in Hrun.
  exists lp. split.
  - unfold _log_prior, bind, get. rewrite Hrun. reflexivity.
  - unfold get_posterior, loglike, bind, get.
    rewrite (Forall2_length _ _ _ HF), Nat.eqb_refl. simpl.
    rewrite get_posterior_loop_log_prior_loop, Hrun. simpl.
    pose proof (assign_trial_values_binds (_free_parameters w) trial_values [] w
                  trial_values eq_refl (Forall2_length _ _ _ HF) (fun k x Hk => Hk))
      as Hassign.
    simpl in Hassign. rewrite Hassign.
    set (w1 := with_free_parameters
                 (zip_with bind_value (_free_parameters w) trial_values) w).
    pose proof (log_like_frame trial_values w1) as (_ & Hv & _).
    destruct (_log_like trial_values w1) as [[ll|e] w2]; simpl in *; [|reflexivity].
    rewrite Hv, Hverbose. unfold ret. rewrite float_add_comm. reflexivity.
Qed.

(** While every prior has the transform the loop of the [prior] closures
    goes on with the rest of the parameters. *)
Lemma prior_loop_app (pre : list (string * Param)) :
  forall rest i params,
    forallb has_from_unit_cube pre = true ->
    i + length pre <= length params ->
    prior_loop (pre ++ rest) i params =
      prior_loop rest (i + length pre) (prior_loop pre i params).2.
Proof.
  induction pre as [|[n p] pre IH]; intros rest i params Hall Hlen; simpl.
  - rewrite Nat.add_0_r. reflexivity.
  - apply andb_true_iff in Hall as [Hp Hrest].
    unfold has_from_unit_cube in Hp. simpl in Hp.
    destruct (lookup_from_unit_cube p) as [f|]; [|discriminate].
    destruct (params !! i) as [u|] eqn:Hu; [|apply lookup_ge_None in Hu; simpl in Hlen; lia].
    rewrite IH by (try exact Hrest; rewrite length_insert; simpl in Hlen; lia).
    replace (S i + length pre) with (i + S (length pre)) by lia. reflexivity.
Qed.

(** X6. When the in-place [prior] closure fails on a parameter without the
    transform, the caller's array has already been changed: the coordinates
    of the parameters before the offending one are transformed, the others
    are as they were. *)
Theorem prior_inplace_partial_on_failure (w : World) (cube : list float)
    (pre post : list (string * Param)) (parameter_name : string) (parameter : Param) :
  _free_parameters w = pre ++ (parameter_name, parameter) :: post ->
  forallb has_from_unit_cube pre = true ->
  lookup_from_unit_cube parameter = None ->
  length pre <= length cube ->
  exists params',
    prior_inplace cube w = (Raise (RuntimeError (unitcube_msg parameter_name)), params') /\
    length params' = length cube /\
    (forall k np f u,
       pre !! k = Some np -> lookup_from_unit_cube np.2 = Some f ->
       cube !! k = Some u -> params' !! k = Some (f u)) /\
    (forall j, length pre <= j -> params' !! j = cube !! j).
Proof.
  intros Hfps Hall Hnone Hlen.
  destruct (prior_loop_ok pre 0 cube Hall) as (params' & Hrun & Hl & Hmap & Hframe);
    [simpl; exact Hlen|].
  exists params'. unfold prior_inplace. rewrite Hfps.
  rewrite prior_loop_app by (try exact Hall; simpl; exact Hlen).
  rewrite Hrun. simpl. rewrite Hnone.
  split; [reflexivity|]. split; [exact Hl|]. split.
  - intros k np f u Hk Hf Hu. apply (Hmap k np f u Hk Hf Hu).
  - intros j Hj. apply Hframe. right. simpl. exact Hj.
Qed.

(** X7. On a cube with fewer coordinates than there are free parameters,
    all of them with the transform, both [prior] closures end with an
    [IndexError]. *)
Theorem prior_on_short_cube (w : World) (cube : list float) :
  forallb has_from_unit_cube (_free_parameters w) = true ->
  length cube < length (_free_parameters w) ->
  prior_copy cube w = Raise IndexError /\
  fst (prior_inplace cube w) = Raise IndexError.
Proof.
  intros Hall Hlen.
  rewrite <- (take_drop (length cube) (_free_parameters w)) in Hall.
  rewrite forallb_app in Hall. apply andb_true_iff in Hall as [Hpre Hrest].
  assert (Htake : length (take (length cube) (_free_parameters w)) = length cube).
  { rewrite length_take. lia. }
  destruct (drop (length cube) (_free_parameters w)) as [|[n p] rest] eqn:Hdrop.
  { apply (f_equal length) in Hdrop. rewrite length_drop in Hdrop. simpl in Hdrop. lia. }
  simpl in Hrest. apply andb_true_iff in Hrest as [Hp _].
  unfold has_from_unit_cube in Hp. simpl in Hp.
  destruct (lookup_from_unit_cube p) as [f|] eqn:Hf; [|discriminate].
  destruct (prior_loop_ok (take (length cube) (_free_parameters w)) 0 cube Hpre)
    as (params' & Hrun & Hl & _); [simpl; lia|].
  assert (Hloop : prior_loop (_free_parameters w) 0 cube = (Raise IndexError, params')).
  { rewrite <- (take_drop (length cube) (_free_parameters w)), Hdrop.
    rewrite prior_loop_app by (try exact Hpre; simpl; lia).
    rewrite Hrun. simpl. rewrite Hf, Htake.
    destruct (params' !! length cube) as [u|] eqn:Hu; [|reflexivity].
    apply lookup_lt_Some in Hu. lia. }
  unfold prior_copy, prior_inplace. rewrite Hloop. split; reflexivity.
Qed.

Lemma prior_loop_Ok_has_transform (items : list (string * Param)) :
  forall i params,
    fst (prior_loop items i params) = Ok tt ->
    forallb has_from_unit_cube items = true.
Proof.
  induction items as [|[n p] items IH]; intros i params H; simpl in *; [reflexivity|].
  unfold has_from_unit_cube at 1. simpl.
  destruct (lookup_from_unit_cube p) as [f|]; [|discriminate].
  destruct (params !! i) as [u|]; [|discriminate].
  simpl. apply (IH _ _ H).
Qed.

(** X8. What the dry run buys: when [_construct_unitcube_posterior] returns
    the in-place closure, that closure succeeds on every cube that has a
    coordinate for each free parameter, as long as the free parameters are
    those of the returned state. *)
Theorem dry_run_guarantee (w w' : World) (loglike' : list float -> M float)
    (prior' : list float -> World -> result unit * list float) :
  _construct_unitcube_posterior false w = (Ok (loglike', PriorInPlace prior'), w') ->
  forall cube,
    length (_free_parameters w') <= length cube ->
    fst (prior' cube w') = Ok tt.
Proof.
  unfold _construct_unitcube_posterior, bind, _update_free_parameters, modify, get.
  simpl. intros H cube Hlen.
  set (w1 := with_free_parameters (free_parameters (_likelihood_model w)) w) in *.
  destruct (prior_inplace
              (replicate (length (free_parameters (_likelihood_model w))) 0.5%float) w1)
    as [[[]|e] dry] eqn:Hdry; simpl in H; [|discriminate].
  unfold ret in H. injection H as _ <- <-.
  assert (Hall : forallb has_from_unit_cube (_free_parameters w1) = true).
  { apply (prior_loop_Ok_has_transform _ 0
             (replicate (length (free_parameters (_likelihood_model w))) 0.5%float)).
    unfold prior_inplace in Hdry. rewrite Hdry. reflexivity. }
  destruct (prior_loop_ok (_free_parameters w1) 0 cube Hall) as (params' & Hrun & _);
    [simpl; exact Hlen|].
  unfold prior_inplace. rewrite Hrun. reflexivity.
Qed.

(** X9. The name check of the registration: the nuisance parameters of a
    dataset are all added exactly when each of their names contains the
    dataset's name as a substring. *)
Theorem nuisance_name_check (dataset_name : string) (items : list (string * Param))
    (w : World) :
  is_Ok (fst (add_nuisance_parameters dataset_name items w)) = true <->
  Forall (fun np => exists pre post, np.1 = (pre ++ dataset_name ++ post)%string) items.
Proof.
  destruct (forallb (fun np => str_in dataset_name np.1) items) eqn:Hall.
  - rewrite add_nuisance_parameters_ok by exact Hall. simpl. split; [intros _|reflexivity].
    apply Forall_forall. intros np Hnp.
    apply str_in_spec. rewrite forallb_forall in Hall. apply Hall.
    apply list_elem_of_In. exact Hnp.
  - destruct (add_nuisance_parameters_bad dataset_name items w Hall) as (w' & -> & _).
    simpl. split; [discriminate|]. intros HF. exfalso.
    assert (forallb (fun np => str_in dataset_name np.1) items = true); [|congruence].
    apply forallb_forall. intros np Hnp. apply str_in_spec.
    rewrite Forall_forall in HF. apply HF. apply list_elem_of_In. exact Hnp.
Qed.

(** The prior loop reads the trial values of its own parameters only. *)
Lemma log_prior_loop_reads_prefix (items : list (string * Param)) :
  forall i trial_values other_values log_prior w,
    (forall k, k < i + length items -> trial_values !! k = other_values !! k) ->
    _log_prior_loop items i trial_values log_prior w =
    _log_prior_loop items i other_values log_prior w.
Proof.
  induction items as [|[n p] items IH]; intros i tv tv' lp w Hsame; simpl; [reflexivity|].
  unfold bind, getitem. rewrite <- (Hsame i) by (simpl; lia).
  destruct (tv !! i) as [x|]; [|reflexivity]. unfold ret. cbn beta iota.
  destruct (call_prior p x w) as [[pv|e] w1]; [|reflexivity].
  destruct (pv =? 0)%float; [reflexivity|].
  destruct (assign_value i x w1) as [[[]|e] w2]; [|reflexivity].
  destruct (math_log10 pv w2) as [[l|e] w3]; [|reflexivity].
  apply IH. intros k Hk. apply Hsame. simpl. lia.
Qed.

(** X10. Values beyond the free parameters: [_log_prior] never reads them,
    so a vector with surplus values gives what the vector without them
    gives, while [get_posterior] refuses such a vector with its assertion
    and touches nothing. *)
Theorem surplus_trial_values (w : World) (trial_values surplus : list float) :
  length trial_values = length (_free_parameters w) ->
  _log_prior (trial_values ++ surplus) w = _log_prior trial_values w /\
  (surplus <> [] ->
   exists msg, get_posterior (trial_values ++ surplus) w = (Raise (AssertionError msg), w)).
Proof.
  intros Hlen. split.
  - unfold _log_prior, bind, get.
    rewrite (log_prior_loop_reads_prefix (_free_parameters w) 0
               (trial_values ++ surplus) trial_values); [reflexivity|].
    intros k Hk. simpl in Hk. apply lookup_app_l. lia.
  - intros Hne. unfold get_posterior, bind, get.
    replace (length (_free_parameters w) =? length (trial_values ++ surplus))%nat
      with false.
    + eexists. reflexivity.
    + symmetry. apply Nat.eqb_neq. rewrite length_app.
      destruct surplus; [congruence | simpl; lia].
Qed.

End SamplerBase.

(** *** A concrete sampler: one free parameter, two datasets *)

Arguments Build_World {Model}.
Arguments _likelihood_model {Model}.
Arguments _data_list {Model}.
Arguments _free_parameters {Model}.
Arguments _is_registered {Model}.
Arguments events {Model}.

(** The model is its ordered dictionary of free parameters. *)
Definition DictModel : Type := list (string * Param).
Definition dict_free_parameters (m : DictModel) : list (string * Param) := m.
Definition dict_add_external_parameter (p : Param) (m : DictModel) : DictModel :=
  m ++ [("external"%string, p)].
Definition keep_dataset (m : DictModel) (d : Dataset) : Dataset := d.

(** Stand-ins for the two library functions: they fix a value, the theorems
    above hold for any. *)
Definition log10_table (x : float) : float :=
  if (x =? 1)%float then 0%float else if (x =? 10)%float then 1%float else (-1)%float.
Definition sequential_sum (values : list float) : float :=
  fold_left PrimFloat.add values 0%float.

(** A uniform prior on [0, 4] and a prior without the unit-cube transform. *)
Definition uniform_0_4 : Prior :=
  {| density := fun x => if ((0 <=? x) && (x <=? 4))%float then 0.25%float else 0%float;
     from_unit_cube := Some (fun u => (4 * u)%float) |}.
Definition flat_no_transform : Prior :=
  {| density := fun _ => 1%float; from_unit_cube := None |}.

Definition par_a : Param := {| value := 1%float; prior := Some uniform_0_4 |}.
Definition par_b : Param := {| value := 2%float; prior := Some flat_no_transform |}.
Definition par_no_prior : Param := {| value := 0%float; prior := None |}.

Definition first_value (fps : list (string * Param)) : float :=
  match fps with
  | (_, p) :: _ => value p
  | [] => 0%float
  end.

(** Three datasets: a parabola, one that leaves the valid region above 4,
    and one that meets an unexpected error. *)
Definition ds_parabola : Dataset :=
  {| name := "obs1"; nuisance_parameters := [("cons_obs1"%string, par_a)];
     get_log_like := fun fps => Ok (- (first_value fps * first_value fps))%float |}.
Definition ds_region : Dataset :=
  {| name := "obs2"; nuisance_parameters := [];
     get_log_like := fun fps =>
       if (4 <? first_value fps)%float then Raise ModelAssertionViolation
       else Ok (- first_value fps)%float |}.
Definition ds_broken : Dataset :=
  {| name := "obs3"; nuisance_parameters := [("cons"%string, par_a)];
     get_log_like := fun _ => Raise (OtherError "ZeroDivisionError") |}.
Definition ds_infinite : Dataset :=
  {| name := "obs4"; nuisance_parameters := [];
     get_log_like := fun _ => Ok infinity |}.

Definition world_of (fps : list (string * Param)) (datasets : list Dataset)
  : World DictModel :=
  Build_World fps datasets fps false false [].

Definition w_a : World DictModel := world_of [("a"%string, par_a)] [ds_parabola; ds_region].
Definition w_ab : World DictModel :=
  world_of [("a"%string, par_a); ("b"%string, par_b)] [ds_parabola; ds_region].

Definition run_get_posterior :=
  get_posterior DictModel log10_table sequential_sum.
Definition run_log_prior := _log_prior DictModel log10_table.
Definition run_log_like := _log_like DictModel sequential_sum.
Definition run_register :=
  _register_model_and_data DictModel dict_free_parameters dict_add_external_parameter
    keep_dataset.
Definition run_construct :=
  _construct_unitcube_posterior DictModel dict_free_parameters sequential_sum.

(** The scenario of the spec: trial value 3 under the uniform prior. *)
Example get_posterior_at_3 :
  fst (run_get_posterior [3%float] w_a) = Ok (log10_table 0.25 + (0 + -9 + -3))%float /\
  events (snd (run_get_posterior [3%float] w_a)) = [EvGetLogLike "obs1"; EvGetLogLike "obs2"] /\
  map (fun np => value np.2) (_free_parameters (snd (run_get_posterior [3%float] w_a)))
    = [3%float].
Proof. repeat split; reflexivity. Qed.

Example get_posterior_out_of_support :
  fst (run_get_posterior [7%float] w_a) = Ok neg_infinity /\
  events (snd (run_get_posterior [7%float] w_a)) = [] /\
  fst (run_log_prior [7%float] w_a) = Ok neg_infinity.
Proof. repeat split; reflexivity. Qed.

(** A vector of another length than the free parameters fails the assertion
    of [get_posterior]; [_log_prior] has no such check. *)
Example get_posterior_length_mismatch :
  is_Ok (fst (run_get_posterior [3%float; 1%float] w_a)) = false /\
  is_Ok (fst (run_log_prior [3%float; 1%float] w_a)) = true.
Proof. split; reflexivity. Qed.

Lemma get_posterior_decomposition_witness :
  Forall2 (fun np x => prior_positive np x = true) (_free_parameters w_a) [3%float] /\
  exists log_prior w1,
    run_log_prior [3%float] w_a = (Ok log_prior, w1) /\
    run_get_posterior [3%float] w_a =
      match run_log_like [3%float] w1 with
      | (Ok log_like, w2) => (Ok (log_prior + log_like)%float, w2)
      | (Raise e, w2) => (Raise e, w2)
      end.
Proof.
  assert (H : Forall2 (fun np x => prior_positive np x = true)
                (_free_parameters w_a) [3%float]).
  { repeat constructor. }
  split; [exact H|].
  exact (get_posterior_decomposition DictModel log10_table sequential_sum w_a [3%float] H).
Defined.

Lemma zero_prior_short_circuit_witness :
  (Forall2 (fun np x => prior_not_negative np x = true)
     (_free_parameters w_ab) [7%float; 0%float] /\
   Exists (fun npx => prior_zero npx.1 npx.2 = true)
     (zip (_free_parameters w_ab) [7%float; 0%float])) /\
  (exists w', run_get_posterior [7%float; 0%float] w_ab = (Ok (- py_inf)%float, w') /\
              events w' = events w_ab /\
              get_log_like_calls (events w') = get_log_like_calls (events w_ab)) /\
  (exists w', run_log_prior [7%float; 0%float] w_ab = (Ok (- py_inf)%float, w')).
Proof.
  assert (H1 : Forall2 (fun np x => prior_not_negative np x = true)
                 (_free_parameters w_ab) [7%float; 0%float]).
  { repeat constructor. }
  assert (H2 : Exists (fun npx => prior_zero npx.1 npx.2 = true)
                 (zip (_free_parameters w_ab) [7%float; 0%float])).
  { apply Exists_cons_hd. reflexivity. }
  split; [split; [exact H1 | exact H2]|].
  exact (zero_prior_short_circuit DictModel log10_table sequential_sum w_ab
           [7%float; 0%float] H1 H2).
Defined.

(** [_log_like] on the three kinds of failure and on success. *)
Example log_like_model_violation :
  fst (run_log_like [5%float]
         (world_of [("a"%string, set_value 5 par_a)] [ds_parabola; ds_region; ds_broken]))
    = Ok neg_infinity.
Proof. reflexivity. Qed.

Example log_like_other_exception :
  fst (run_log_like [1%float]
         (world_of [("a"%string, par_a)] [ds_parabola; ds_broken; ds_region]))
    = Raise (OtherError "ZeroDivisionError").
Proof. reflexivity. Qed.

Example log_like_not_finite :
  run_log_like [1%float] (world_of [("a"%string, par_a)] [ds_parabola; ds_infinite])
    = (Ok neg_infinity,
       Build_World [("a"%string, par_a)] [ds_parabola; ds_infinite] [("a"%string, par_a)]
         false false
         [EvGetLogLike "obs1"; EvGetLogLike "obs4"; EvWarnLikelihoodIsInfinite [1%float]]).
Proof. reflexivity. Qed.

(** Registration: a missing prior, a nuisance name without the dataset's
    name, and a run that succeeds. *)
Example register_missing_prior :
  run_register [("a"%string, par_a); ("c"%string, par_no_prior)] [ds_broken] w_a
    = (Raise (RuntimeError missing_prior_msg), w_a).
Proof. reflexivity. Qed.

Example register_bad_nuisance_name :
  fst (run_register [("a"%string, par_a)] [ds_parabola; ds_broken] w_a)
    = Raise (AssertionError nuisance_name_msg).
Proof. reflexivity. Qed.

Example register_ok :
  run_register [("a"%string, par_a)] [ds_parabola; ds_region] w_ab
    = (Ok tt,
       Build_World [("a"%string, par_a); ("external"%string, par_a)]
         [ds_parabola; ds_region] (_free_parameters w_ab) false true []).
Proof. reflexivity. Qed.

(** With the uniform prior alone both variants are built, and the closures
    map the cube coordinate 0.5 to the middle of the support. *)
Example construct_with_transform :
  fst (run_construct false w_a) =
    Ok (loglike DictModel sequential_sum, PriorInPlace DictModel (prior_inplace DictModel)) /\
  prior_inplace DictModel [0.5%float] w_a = (Ok tt, [2%float]) /\
  prior_copy DictModel [0.5%float] w_a = Ok [2%float].
Proof. repeat split; reflexivity. Qed.

(** C9, as the claim states it: with [return_copy=True] no dry run takes
    place.  The model has a free parameter whose prior lacks the transform;
    the construction succeeds all the same, and the error appears only when
    the returned closure is called.  The in-place variant fails at once. *)
Lemma copy_variant_has_no_dry_run :
  has_from_unit_cube ("b"%string, par_b) = false /\
  run_construct true w_ab =
    (Ok (loglike DictModel sequential_sum, PriorCopy DictModel (prior_copy DictModel)), w_ab) /\
  prior_copy DictModel [0.5%float; 0.5%float] w_ab = Raise (RuntimeError (unitcube_msg "b")) /\
  fst (run_construct false w_ab) = Raise (RuntimeError (unitcube_msg "b")).
Proof. repeat split; reflexivity. Qed.


(** ** The side channel on concrete models *)

(** A prior whose density is negative below zero, and a model with it. *)
Definition signed_density : Prior :=
  {| density := fun x => if (x <? 0)%float then (-1)%float else 1%float;
     from_unit_cube := None |}.
Definition par_signed : Param := {| value := 1%float; prior := Some signed_density |}.
Definition w_acb : World DictModel :=
  world_of [("a"%string, par_a); ("c"%string, par_a); ("b"%string, par_b)] [ds_parabola].
Definition w_as : World DictModel :=
  world_of [("a"%string, par_a); ("s"%string, par_signed)] [ds_parabola].

Lemma log_prior_binds_trial_values_witness :
  Forall2 (fun np x => prior_positive np x = true) (_free_parameters w_a) [3%float] /\
  _free_parameters (snd (run_get_posterior [3%float] w_a)) =
    zip_with bind_value (_free_parameters w_a) [3%float].
Proof.
  assert (H : Forall2 (fun np x => prior_positive np x = true)
                (_free_parameters w_a) [3%float]).
  { repeat constructor. }
  split; [exact H|].
  exact (proj1 (proj2 (log_prior_binds_trial_values DictModel log10_table sequential_sum
                         w_a [3%float] H))).
Defined.

Lemma zero_prior_leaves_mixed_state_witness :
  run_get_posterior ([3%float] ++ 7%float :: [0%float]) w_acb =
    (Ok (- py_inf)%float,
     with_free_parameters DictModel
       (zip_with bind_value [("a"%string, par_a)] [3%float] ++
        ("c"%string, par_a) :: [("b"%string, par_b)]) w_acb).
Proof.
  apply (zero_prior_leaves_mixed_state DictModel log10_table sequential_sum w_acb
           [("a"%string, par_a)] [("b"%string, par_b)] "c" par_a uniform_0_4
           [3%float] [0%float] 7%float).
  - reflexivity.
  - repeat constructor.
  - reflexivity.
  - reflexivity.
  - reflexivity.
Defined.

Lemma negative_prior_raises_value_error_witness :
  run_get_posterior ([3%float] ++ (-2)%float :: []) w_as =
    (Raise ValueError,
     with_free_parameters DictModel
       (zip_with bind_value [("a"%string, par_a)] [3%float] ++
        ("s"%string, set_value (-2) par_signed) :: []) w_as).
Proof.
  apply (negative_prior_raises_value_error DictModel log10_table sequential_sum w_as
           [("a"%string, par_a)] [] "s" par_signed signed_density
           [3%float] [] (-2)%float).
  - reflexivity.
  - repeat constructor.
  - reflexivity.
  - reflexivity.
  - reflexivity.
Defined.

Lemma posterior_is_prior_plus_loglike_witness :
  exists log_prior,
    fst (run_log_prior [3%float] w_a) = Ok log_prior /\
    run_get_posterior [3%float] w_a =
      match loglike DictModel sequential_sum [3%float] w_a with
      | (Ok log_like, w') => (Ok (log_prior + log_like)%float, w')
      | (Raise e, w') => (Raise e, w')
      end.
Proof.
  apply (posterior_is_prior_plus_loglike DictModel log10_table sequential_sum w_a [3%float]).
  - reflexivity.
  - repeat constructor.
Defined.

Lemma prior_inplace_partial_on_failure_witness :
  exists params',
    prior_inplace DictModel [0.5%float; 0.5%float] w_ab =
      (Raise (RuntimeError (unitcube_msg "b")), params') /\
    length params' = 2 /\
    (forall k np f u,
       [("a"%string, par_a)] !! k = Some np -> lookup_from_unit_cube np.2 = Some f ->
       [0.5%float; 0.5%float] !! k = Some u -> params' !! k = Some (f u)) /\
    (forall j, 1 <= j -> params' !! j = [0.5%float; 0.5%float] !! j).
Proof.
  apply (prior_inplace_partial_on_failure DictModel w_ab [0.5%float; 0.5%float]
           [("a"%string, par_a)] [] "b" par_b).
  - reflexivity.
  - reflexivity.
  - reflexivity.
  - simpl. lia.
Defined.

Lemma prior_on_short_cube_witness :
  prior_copy DictModel [] w_a = Raise IndexError /\
  fst (prior_inplace DictModel [] w_a) = Raise IndexError.
Proof.
  apply (prior_on_short_cube DictModel w_a []).
  - reflexivity.
  - simpl. lia.
Defined.

Lemma dry_run_guarantee_witness :
  fst (prior_inplace DictModel [0.25%float; 0.75%float] w_a) = Ok tt.
Proof.
  apply (dry_run_guarantee DictModel dict_free_parameters sequential_sum w_a w_a
           (loglike DictModel sequential_sum) (prior_inplace DictModel)).
  - reflexivity.
  - simpl. lia.
Defined.

Lemma surplus_trial_values_witness :
  run_log_prior ([3%float] ++ [1%float]) w_a = run_log_prior [3%float] w_a /\
  ([1%float] <> [] ->
   exists msg, run_get_posterior ([3%float] ++ [1%float]) w_a = (Raise (AssertionError msg), w_a)).
Proof.
  apply (surplus_trial_values DictModel log10_table sequential_sum w_a [3%float] [1%float]).
  reflexivity.
Defined.

(** ** The samples by parameter (lines 194-217) *)

(** An [OrderedDict] with string keys: an assignment to a key that is
    present replaces its value in place, a new key goes to the end. *)
Definition odict (V : Type) : Type := list (string * V).

Fixpoint odict_set {V} (k : string) (v : V) (d : odict V) : odict V :=
  match d with
  | [] => [(k, v)]
  | (k', v') :: d' =>
      if String.eqb k k' then (k', v) :: d' else (k', v') :: odict_set k v d'
  end.

Fixpoint odict_get {V} (k : string) (d : odict V) : option V :=
  match d with
  | [] => None
  | (k', v') :: d' => if String.eqb k k' then Some v' else odict_get k d'
  end.

Section Samples.

(** [numpy.median] *)
Variable np_median : list float -> float.

(** The attributes the two methods use.  [_raw_samples] is a
    two-dimensional array, kept here as the list of its columns, or [None]
    before a sampler has run. *)
Record SampleStore : Type := {
  parameters : list (string * Param);          (* [self._free_parameters] *)
  _raw_samples : option (list (list float));
  _samples : option (odict (list float))
}.

(** The loop of [_build_samples_dictionary]; [raw[:, i]] raises a
    [TypeError] on [None] and an [IndexError] beyond the last column. *)
Fixpoint build_loop (items : list (string * Param)) (i : nat)
    (raw : option (list (list float))) (samples : odict (list float))
  : result unit * odict (list float) :=
  match items with
  | [] => (Ok tt, samples)
  | (parameter_name, _) :: rest =>
      match raw with
      | None => (Raise TypeError, samples)
      | Some columns =>
          match columns !! i with
          | None => (Raise IndexError, samples)
          | Some column => build_loop rest (S i) raw (odict_set parameter_name column samples)
          end
      end
  end.

Definition _build_samples_dictionary (self : SampleStore) : result unit * SampleStore :=
  let (r, samples) := build_loop (parameters self) 0 (_raw_samples self) [] in
  (r, {| parameters := parameters self; _raw_samples := _raw_samples self;
         _samples := Some samples |}).

(** The loop of [restore_median_fit]: the parameters as it leaves them. *)
Fixpoint restore_loop (items : list (string * Param)) (samples : option (odict (list float)))
  : result unit * list (string * Param) :=
  match items with
  | [] => (Ok tt, [])
  | (parameter_name, parameter) :: rest =>
      match samples with
      | None => (Raise TypeError, items)
      | Some d =>
          match odict_get parameter_name d with
          | None => (Raise (OtherError "KeyError"), items)
          | Some column =>
              let (r, rest') := restore_loop rest samples in
              (r, (parameter_name, set_value (np_median column) parameter) :: rest')
          end
      end
  end.

Definition restore_median_fit (self : SampleStore) : result unit * SampleStore :=
  let (r, parameters') := restore_loop (parameters self) (_samples self) in
  (r, {| parameters := parameters'; _raw_samples := _raw_samples self;
         _samples := _samples self |}).

Lemma odict_set_fresh {V} (k : string) (v : V) (d : odict V) :
  ~ elem_of k (map fst d) -> odict_set k v d = d ++ [(k, v)].
Proof.
  induction d as [|[k' v'] d IH]; simpl; intros Hk; [reflexivity|].
  rewrite not_elem_of_cons in Hk. destruct Hk as [Hne Hk].
  destruct (String.eqb_spec k k') as [->|_]; [congruence|].
  rewrite IH by exact Hk. reflexivity.
Qed.

Lemma odict_get_middle {V} (k : string) (v : V) (pre post : odict V) :
  ~ elem_of k (map fst pre) -> odict_get k (pre ++ (k, v) :: post) = Some v.
Proof.
  induction pre as [|[k' v'] pre IH]; simpl; intros Hk.
  - rewrite String.eqb_refl. reflexivity.
  - rewrite not_elem_of_cons in Hk. destruct Hk as [Hne Hk].
    destruct (String.eqb_spec k k') as [->|_]; [congruence|]. apply IH. exact Hk.
Qed.

Lemma build_loop_spec (columns : list (list float)) (items : list (string * Param)) :
  forall i samples,
    i <= length columns ->
    NoDup (map fst samples ++ map fst items) ->
    build_loop items i (Some columns) samples =
      (if (i + length items <=? length columns)%nat then Ok tt else Raise IndexError,
       samples ++ zip (map fst items) (drop i columns)).
Proof.
  induction items as [|[n p] items IH]; intros i samples Hi Hnd.
  - simpl. rewrite app_nil_r.
    replace (i + 0 <=? length columns)%nat with true
      by (symmetry; apply Nat.leb_le; lia).
    reflexivity.
  - cbn [build_loop]. destruct (columns !! i) as [column|] eqn:Hc.
    + assert (Hfresh : ~ elem_of n (map fst samples)).
      { apply NoDup_app in Hnd as (_ & Hdis & _). intros Hin.
        apply (Hdis n Hin). simpl. apply elem_of_cons. left. reflexivity. }
      pose proof (lookup_lt_Some _ _ _ Hc) as Hlt.
      rewrite (odict_set_fresh n column samples Hfresh), IH.
      * replace (S i + length items)%nat with (i + length ((n, p) :: items))%nat
          by (simpl; lia).
        rewrite (drop_S columns column i Hc). cbn [map fst zip_with].
        rewrite <- app_assoc. reflexivity.
      * lia.
      * rewrite map_app, <- app_assoc. exact Hnd.
    + apply lookup_ge_None in Hc. rewrite drop_ge by exact Hc.
      simpl zip. rewrite app_nil_r.
      replace (i + length ((n, p) :: items) <=? length columns)%nat with false
        by (symmetry; apply Nat.leb_gt; simpl; lia).
      reflexivity.
Qed.

Lemma restore_loop_spec (items : list (string * Param)) :
  forall pre columns,
    NoDup (map fst pre ++ map fst items) ->
    length items <= length columns ->
    restore_loop items (Some (pre ++ zip (map fst items) columns)) =
      (Ok tt,
       zip_with (fun np column => (np.1, set_value (np_median column) np.2)) items columns).
Proof.
  induction items as [|[n p] items IH]; intros pre columns Hnd Hlen; [reflexivity|].
  destruct columns as [|column columns]; [simpl in Hlen; lia|].
  cbn [restore_loop map fst zip_with].
  assert (Hfresh : ~ elem_of n (map fst pre)).
  { apply NoDup_app in Hnd as (_ & Hdis & _). intros Hin.
    apply (Hdis n Hin). simpl. apply elem_of_cons. left. reflexivity. }
  rewrite (odict_get_middle n column pre _ Hfresh).
  replace (pre ++ (n, column) :: zip (map fst items) columns)
    with ((pre ++ [(n, column)]) ++ zip (map fst items) columns)
    by (rewrite <- app_assoc; reflexivity).
  rewrite IH.
  - reflexivity.
  - rewrite map_app, <- app_assoc. exact Hnd.
  - simpl in Hlen. lia.
Qed.

(** X22. With one column of raw samples for each free parameter, and the
    parameter names distinct as the keys of a dictionary are,
    [_build_samples_dictionary] files the columns under the names in the
    order of the parameters, and [restore_median_fit] then sets every
    parameter to the median of its own column, leaving names and priors as
    they were. *)
Theorem restore_median_fit_after_build (self : SampleStore)
    (columns : list (list float)) :
  NoDup (map fst (parameters self)) ->
  _raw_samples self = Some columns ->
  length (parameters self) <= length columns ->
  exists built,
    _build_samples_dictionary self = (Ok tt, built) /\
    _samples built = Some (zip (map fst (parameters self)) columns) /\
    restore_median_fit built =
      (Ok tt,
       {| parameters :=
            zip_with (fun np column => (np.1, set_value (np_median column) np.2))
              (parameters self) columns;
          _raw_samples := Some columns;
          _samples := Some (zip (map fst (parameters self)) columns) |}).
Proof.
  intros Hnd Hraw Hlen. unfold _build_samples_dictionary. rewrite Hraw.
  rewrite build_loop_spec by (simpl; try lia; exact Hnd).
  replace (0 + length (parameters self) <=? length columns)%nat with true
    by (symmetry; apply Nat.leb_le; lia).
  rewrite drop_0. simpl app. eexists. split; [reflexivity|]. split; [reflexivity|].
  unfold restore_median_fit. cbn [parameters _samples _raw_samples].
  pose proof (restore_loop_spec (parameters self) [] columns Hnd Hlen) as Hrestore.
  rewrite app_nil_l in Hrestore. unfold odict in *. rewrite Hrestore. reflexivity.
Qed.

(** X23. With fewer columns than free parameters the building of the
    dictionary ends with an [IndexError]; the dictionary it had started has
    replaced the former one and holds the parameters that have a column. *)
Theorem build_samples_with_missing_columns (self : SampleStore)
    (columns : list (list float)) :
  NoDup (map fst (parameters self)) ->
  _raw_samples self = Some columns ->
  length columns < length (parameters self) ->
  _build_samples_dictionary self =
    (Raise IndexError,
     {| parameters := parameters self;
        _raw_samples := Some columns;
        _samples := Some (zip (map fst (parameters self)) columns) |}).
Proof.
  intros Hnd Hraw Hlen. unfold _build_samples_dictionary. rewrite Hraw.
  rewrite build_loop_spec by (simpl; try lia; exact Hnd).
  replace (0 + length (parameters self) <=? length columns)%nat with false
    by (symmetry; apply Nat.leb_gt; lia).
  rewrite drop_0. reflexivity.
Qed.

End Samples.

(** Two parameters and three samples of each; the median of the stand-in
    is the middle entry of a column of three. *)
Definition middle_of_three (column : list float) : float :=
  match column with
  | [_; m; _] => m
  | _ => nan
  end.

Definition store_ab : SampleStore :=
  {| parameters := [("a"%string, par_a); ("b"%string, par_b)];
     _raw_samples := Some [[1; 2; 3]%float; [5; 6; 7]%float];
     _samples := None |}.

Lemma restore_median_fit_after_build_witness :
  exists built,
    _build_samples_dictionary store_ab = (Ok tt, built) /\
    _samples built =
      Some [("a"%string, [1; 2; 3]%float); ("b"%string, [5; 6; 7]%float)] /\
    restore_median_fit middle_of_three built =
      (Ok tt,
       {| parameters := [("a"%string, set_value 2 par_a); ("b"%string, set_value 6 par_b)];
          _raw_samples := Some [[1; 2; 3]%float; [5; 6; 7]%float];
          _samples :=
            Some [("a"%string, [1; 2; 3]%float); ("b"%string, [5; 6; 7]%float)] |}).
Proof.
  apply (restore_median_fit_after_build middle_of_three store_ab
           [[1; 2; 3]%float; [5; 6; 7]%float]).
  - apply NoDup_ListNoDup. repeat constructor; simpl; intuition discriminate.
  - reflexivity.
  - simpl. lia.
Defined.

Lemma build_samples_with_missing_columns_witness :
  _build_samples_dictionary
    {| parameters := [("a"%string, par_a); ("b"%string, par_b)];
       _raw_samples := Some [[1; 2; 3]%float];
       _samples := None |} =
    (Raise IndexError,
     {| parameters := [("a"%string, par_a); ("b"%string, par_b)];
        _raw_samples := Some [[1; 2; 3]%float];
        _samples := Some [("a"%string, [1; 2; 3]%float)] |}).
Proof.
  apply (build_samples_with_missing_columns
           {| parameters := [("a"%string, par_a); ("b"%string, par_b)];
              _raw_samples := Some [[1; 2; 3]%float];
              _samples := None |} [[1; 2; 3]%float]).
  - apply NoDup_ListNoDup. repeat constructor; simpl; intuition discriminate.
  - reflexivity.
  - simpl. lia.
Defined.

End Sampler.

(** * The background polynomial fit of the GBM TTE plugin *)

Module Bkg.

Local Open Scope float_scope.
Local Set Warnings "-inexact-float".

(** One-dimensional float64 arrays and two-dimensional ones (lists of rows). *)
Abbreviation vec := (list float) (only parsing).
Abbreviation matrix := (list (list float)) (only parsing).

(** [numpy.finfo(float64).tiny], the smallest positive normal number. *)
Definition tiny : float := 0x1p-1022.

(** ** numpy on arrays *)

Definition np_zeros (n : nat) : vec := replicate n 0.
Definition np_zeros2 (rows cols : nat) : matrix := replicate rows (np_zeros cols).

(** [len(mask.nonzero()[0])] *)
Definition count_nonzero (mask : list bool) : nat := length (filter (fun b => b = true) mask).

(** [mask.nonzero()[0]]: the indices where the mask holds. *)
Fixpoint nonzero_from (i : nat) (mask : list bool) : list nat :=
  match mask with
  | [] => []
  | b :: mask' => if b then i :: nonzero_from (S i) mask' else nonzero_from (S i) mask'
  end.
Definition nonzero (mask : list bool) : list nat := nonzero_from 0 mask.

(** [v[mask]] for a boolean mask of the length of [v]. *)
Fixpoint np_select (mask : list bool) (v : vec) : vec :=
  match mask, v with
  | b :: mask', a :: v' => if b then a :: np_select mask' v' else np_select mask' v'
  | _, _ => []
  end.

(** [v[mask] = values]: the selected places take the values in order. *)
Fixpoint np_put (mask : list bool) (v : vec) (values : vec) : vec :=
  match mask, v with
  | b :: mask', a :: v' =>
      if b then
        match values with
        | c :: values' => c :: np_put mask' v' values'
        | [] => a :: v'
        end
      else a :: np_put mask' v' values
  | _, _ => v
  end.

(** [v[mask] = c] for a scalar [c]. *)
Fixpoint np_put_scalar (mask : list bool) (v : vec) (c : float) : vec :=
  match mask, v with
  | b :: mask', a :: v' => (if b then c else a) :: np_put_scalar mask' v' c
  | _, _ => v
  end.

(** [numpy.sign] *)
Definition np_sign (a : float) : float :=
  if 0 <? a then 1 else if a <? 0 then -1 else if a =? 0 then 0 else a.

(** [v[mask]] where the mask comes from another array: numpy raises an
    [IndexError] when the lengths differ. *)
Definition np_getmask (mask : list bool) (v : vec) : result vec :=
  if (length mask =? length v)%nat then Ok (np_select mask v) else Raise IndexError.

(** ** The array store

    [_fixPrecision] changes its argument in place and returns it, so the
    caller holds two names for one array; arrays are kept in a store and
    named by references. *)
Definition ref : Type := nat.
Definition Store : Type := list (list float).

(** State and exceptions over a state [S]. *)
Definition SM (S A : Type) : Type := S -> result A * S.

Definition sm_ret {S A} (a : A) : SM S A := fun h => (Ok a, h).
Definition sm_raise {S A} (e : exn) : SM S A := fun h => (Raise e, h).
Definition sm_bind {S A B} (m : SM S A) (k : A -> SM S B) : SM S B :=
  fun h => match m h with
           | (Ok a, h') => k a h'
           | (Raise e, h') => (Raise e, h')
           end.
Definition sm_lift {S A} (r : result A) : SM S A := fun h => (r, h).
Definition sm_get {S} : SM S S := fun h => (Ok h, h).
Definition sm_modify {S} (f : S -> S) : SM S unit := fun h => (Ok tt, f h).

Definition alloc (v : vec) : SM Store ref := fun h => (Ok (length h), h ++ [v]).
Definition read (r : ref) : SM Store vec :=
  fun h => match h !! r with
           | Some v => (Ok v, h)
           | None => (Raise (OtherError "dangling reference"), h)
           end.
Definition write (r : ref) (v : vec) : SM Store unit := fun h => (Ok tt, <[r := v]> h).

Notation "'let*' x ':=' m 'in' k" := (sm_bind m (fun x => k))
  (at level 10, x pattern, m at level 100, k at level 200, only parsing).

(** [l[i]] *)
Definition getitem {A} (l : list A) (i : nat) : result A :=
  match l !! i with
  | Some a => Ok a
  | None => Raise IndexError
  end.

(** A list comprehension whose element may raise. *)
Fixpoint result_map {A B} (f : A -> result B) (l : list A) : result (list B) :=
  match l with
  | [] => Ok []
  | a :: l' =>
      match f a with
      | Raise e => Raise e
      | Ok b => match result_map f l' with
                | Raise e => Raise e
                | Ok bs => Ok (b :: bs)
                end
      end
  end.

(** ** Polynomial (lines 749-854) *)

Record Polynomial : Type := {
  params : vec;
  degree : Z;
  covMatrix : matrix
}.

(** [Polynomial.__init__] *)
Definition Polynomial_init (params : vec) : Polynomial :=
  let degree := (Z.of_nat (length params) - 1)%Z in
  {| params := params;
     degree := degree;
     covMatrix := np_zeros2 (Z.to_nat (degree + 1)) (Z.to_nat (degree + 1)) |}.

(** [horner] at one abscissa; on an array it works element by element. *)
Definition horner (params : vec) (x : float) : float :=
  fold_left (fun result coefficient => result * x + coefficient) (rev params) 0.

(** [__call__] on an array of abscissas.  With no coefficient at all the
    source returns the scalar 0 where this gives a 0 for each abscissa; the
    callers multiply the result by the exposure array, which has the length
    of the abscissas, so that the product is the same. *)
Definition Polynomial_call (self : Polynomial) (x : vec) : vec :=
  map (horner (params self)) x.

Definition setParams (parameters : vec) (self : Polynomial) : Polynomial :=
  {| params := parameters; degree := degree self; covMatrix := covMatrix self |}.

Definition getParams (self : Polynomial) : vec := params self.

Definition getNumFreeParams (self : Polynomial) : Z := (degree self + 1)%Z.

Definition getCovarianceMatrix (self : Polynomial) : matrix := covMatrix self.

(** Element-wise operation on two one-dimensional arrays, with numpy's
    broadcasting of a one-element operand. *)
Definition np_binop (f : float -> float -> float) (a b : vec) : result vec :=
  if (length a =? length b)%nat then Ok (zip_with f a b)
  else match a, b with
       | [a0], _ => Ok (map (f a0) b)
       | _, [b0] => Ok (map (fun e => f e b0) a)
       | _, _ => Raise ValueError
       end.

Section Fit.

(** Library functions: [log] (used unqualified by the source), [numpy.sum],
    [pow] on a float and an integer exponent, [mean], [numpy.polyfit],
    [scipy.optimize.fmin] and [numpy.linalg.inv] ([None]: it raised). *)
Variable np_log : float -> float.
Variable np_sum : vec -> float.
Variable float_pow : float -> nat -> float.
Variable np_mean : vec -> float.
Variable np_polyfit : vec -> vec -> nat -> result vec.
Variable fmin : (vec -> result float) -> vec -> result vec.
Variable np_linalg_inv : matrix -> option matrix.

(** ** BkgLogLikelihood (lines 615-747) *)

Record BkgLogLikelihood : Type := {
  x : vec;
  y : vec;
  model : Polynomial;
  parameters : vec;
  exposure : vec
}.

(** [__init__] without the [exposure] keyword: the exposure is 1 in every bin. *)
Definition BkgLogLikelihood_init (x y : vec) (model : Polynomial) : BkgLogLikelihood :=
  {| x := x; y := y; model := model; parameters := getParams model;
     exposure := map (fun z => z + 1.0) (np_zeros (length x)) |}.

Definition with_model_params (new_params : vec) (self : BkgLogLikelihood)
  : BkgLogLikelihood :=
  {| x := x self; y := y self; model := setParams new_params (model self);
     parameters := parameters self; exposure := exposure self |}.

(** What [_fixPrecision] leaves in the array it is given. *)
Definition fixPrecision_value (v : vec) : result vec :=
  match v with
  | [] => Raise IndexError                             (* [v[0]] *)
  | _ :: _ =>
      let zeroMask := map (fun e => abs e <=? tiny) v in
      if (0 <? count_nonzero zeroMask)%nat then
        Ok (np_put zeroMask v (map (fun e => np_sign e * tiny) (np_select zeroMask v)))
      else Ok v
  end.

(** [_fixPrecision]: in place, and the array itself is returned. *)
Definition _fixPrecision (v : ref) : SM Store (ref * float) :=
  let* a := read v in
  let* a' := sm_lift (fixPrecision_value a) in
  let* _ := write v a' in
  sm_ret (v, tiny).

(** [_evalLogM] *)
Definition _evalLogM (M : vec) : result vec :=
  match M with
  | [] => Raise IndexError                             (* [M[0]] *)
  | _ :: _ =>
      let nontinyMask := map (fun m => 2.0 * tiny <? m) M in
      let tinyMask := map negb nontinyMask in
      if (0 <? count_nonzero tinyMask)%nat then
        let logM := np_zeros (length M) in
        let logM := np_put tinyMask logM
                      (map (fun m => abs m / tiny + np_log tiny - 1) (np_select tinyMask M)) in
        let logM := np_put nontinyMask logM (map np_log (np_select nontinyMask M)) in
        Ok logM
      else Ok (map np_log M)
  end.

(** Lines 683-685: [d_times_logM]. *)
Definition d_times_logM (y logM : vec) : result vec :=
  let d_times_logM := np_zeros (length y) in
  let nonzeroMask := map (fun d => 0 <? d) y in
  match np_getmask nonzeroMask logM with
  | Raise e => Raise e
  | Ok selected =>
      Ok (np_put nonzeroMask d_times_logM (zip_with mul (np_select nonzeroMask y) selected))
  end.

(** The body of [__call__] after [setParams], on the array store. *)
Definition cash_statistic (self : BkgLogLikelihood) : SM Store float :=
  let* M0 := sm_lift (np_binop mul (Polynomial_call (model self) (x self)) (exposure self)) in
  let* M := alloc M0 in
  let* (Mfixed, _) := _fixPrecision M in
  let* Mv := read M in
  let negativeMask := map (fun m => m <? 0) Mv in
  let* _ := if (0 <? count_nonzero negativeMask)%nat
            then write M (np_put_scalar negativeMask Mv 0.0)
            else sm_ret tt in
  let* Mv := read M in
  let* logM := sm_lift (_evalLogM Mv) in
  let* dlogM := sm_lift (d_times_logM (y self) logM) in
  let* Mf := read Mfixed in
  let* terms := sm_lift (np_binop sub Mf dlogM) in
  sm_ret (np_sum terms).

(** [__call__]: the value, and the object with the parameters set on its model. *)
Definition BkgLogLikelihood_call (self : BkgLogLikelihood) (parameters : vec)
  : result float * BkgLogLikelihood :=
  let self' := with_model_params parameters self in
  (fst (cash_statistic self' []), self').

(** [Polynomial.getFreeDerivs]: row [i] holds [pow(xx, i)] for every [xx]. *)
Definition Polynomial_getFreeDerivs (self : Polynomial) (x : vec) : matrix :=
  map (fun i => map (fun xx => float_pow xx i) x) (seq 0 (Z.to_nat (degree self + 1))).

(** Lines 734-736: [y_divided_M]. *)
Definition y_divided_M (y M : vec) : result vec :=
  let y_divided_M := np_zeros (length y) in
  let nonzero := map (fun d => 0 <? d) y in
  match np_getmask nonzero M with
  | Raise e => Raise e
  | Ok selected =>
      Ok (np_put nonzero y_divided_M (zip_with div (np_select nonzero y) selected))
  end.

(** [BkgLogLikelihood.getFreeDerivs] with a parameter vector: the gradient,
    and the object with the parameters set on its model. *)
Definition getFreeDerivs (self : BkgLogLikelihood) (new_params : vec)
  : result vec * BkgLogLikelihood :=
  let self' := with_model_params new_params self in
  let rows := Polynomial_getFreeDerivs (model self') (x self') in
  (match
     match rows with
     | [] => match np_binop mul [] (exposure self') with
             | Raise e => Raise e
             | Ok _ => Ok []
             end
     | _ :: _ => result_map (fun row => np_binop mul row (exposure self')) rows
     end
   with
   | Raise e => Raise e
   | Ok modelDerivs =>
       match np_binop mul (Polynomial_call (model self') (x self')) (exposure self') with
       | Raise e => Raise e
       | Ok M0 =>
           match fixPrecision_value M0 with
           | Raise e => Raise e
           | Ok M =>
               match y_divided_M (y self') M with
               | Raise e => Raise e
               | Ok ydm =>
                   result_map
                     (fun row =>
                        match fixPrecision_value row with
                        | Raise e => Raise e
                        | Ok thisModelDerivs =>
                            match np_binop mul thisModelDerivs (map (fun q => 1.0 - q) ydm) with
                            | Raise e => Raise e
                            | Ok products => Ok (np_sum products)
                            end
                        end)
                     modelDerivs
               end
           end
       end
   end, self').

(** ** computeCovarianceMatrix (lines 856-950) *)

Definition init_step : float := 0.01.
Definition min_step : float := 1e-12.
Definition max_step : float := 1.
Definition max_iters : nat := 50.
Definition target : float := 0.1.
Definition min_func : float := 1e-7.
Definition max_func : float := 4.

Definition np_maximum (a b : float) : float := if a <? b then b else a.
Definition np_minimum (a b : float) : float := if b <? a then b else a.

(** Python's [min(a, b)] and [max(a, b)]: the first argument unless the
    second is strictly smaller (larger). *)
Definition py_min (a b : float) : float := if b <? a then b else a.
Definition py_max (a b : float) : float := if a <? b then b else a.

(** Every entry of [step_size] before the loops. *)
Definition initial_step_size : float :=
  np_minimum (np_maximum (1 * init_step) (min_step * 1.1)) (max_step * 0.9).

Definition revised_step (delta_f current_step : float) : bool * float :=
  if current_step =? max_step then (true, 0)
  else if current_step =? min_step then (true, 0)
  else
    let adf := abs delta_f in
    if (adf <? min_func) || (max_func <? adf) then
      let new_step := current_step / (adf / target) in
      let new_step := py_min new_step max_step in
      let new_step := py_max new_step min_step in
      (false, new_step)
    else (true, 0).

(** The parameter vector is changed in place ([par] is the polynomial's own
    list), and the warnings are printed. *)
Record CovState : Type := {
  par : vec;
  printed : list (nat * float)      (* parameter index and last step *)
}.

Definition update_par (i : nat) (f : float -> float) (st : CovState) : CovState :=
  {| par := alter f i (par st); printed := printed st |}.

Definition print_warning (i : nat) (di : float) (st : CovState) : CovState :=
  {| par := par st; printed := printed st ++ [(i, di)] |}.

(** What the inner loop leaves in its variables. *)
Record step_vars : Type := {
  g_up : vec;
  g_dn : vec;
  di : float;
  converged : bool
}.

(** The loop [for j in xrange(max_iters)] for parameter [i]; [last] holds
    the variables of the previous iteration. *)
Fixpoint step_search (iters_left : nat) (grad : vec -> result vec) (i : nat)
    (step_size_i : float) (last : option step_vars) : SM CovState step_vars :=
  match iters_left with
  | O =>
      match last with
      | Some vars => sm_ret vars
      | None => sm_raise (OtherError "UnboundLocalError")
      end
  | S iters_left' =>
      let di := step_size_i in
      let* _ := sm_modify (update_par i (fun p => p + di)) in
      let* st := sm_get in
      let* g_up := sm_lift (grad (par st)) in
      let* _ := sm_modify (update_par i (fun p => p - 2 * di)) in
      let* st := sm_get in
      let* g_dn := sm_lift (grad (par st)) in
      let* _ := sm_modify (update_par i (fun p => p + di)) in
      let* diff := sm_lift (np_binop sub g_up g_dn) in
      let* delta_f := sm_lift (getitem diff i) in
      let (converged, new_step) := revised_step delta_f di in
      let vars := {| g_up := g_up; g_dn := g_dn; di := di; converged := converged |} in
      if converged then sm_ret vars
      else step_search iters_left' grad i new_step (Some vars)
  end.

(** [hess[i,:] = row] on an array with [nparams] columns. *)
Definition hess_row (nparams : nat) (row : vec) : result vec :=
  if (length row =? nparams)%nat then Ok row
  else match row with
       | [r0] => Ok (replicate nparams r0)
       | _ => Raise ValueError
       end.

(** The loop [for i in xrange(nparams)]: the rows of the Hessian. *)
Fixpoint hessian_rows (grad : vec -> result vec) (nparams : nat) (indices : list nat)
  : SM CovState matrix :=
  match indices with
  | [] => sm_ret []
  | i :: rest =>
      let* vars := step_search max_iters grad i initial_step_size None in
      let* diff := sm_lift (np_binop sub (g_up vars) (g_dn vars)) in
      let* row := sm_lift (hess_row nparams (map (fun e => e / (2 * di vars)) diff)) in
      let* _ := if converged vars then sm_ret tt
                else sm_modify (print_warning i (di vars)) in
      let* rows := hessian_rows grad nparams rest in
      sm_ret (row :: rows)
  end.

(** The Hessian as assembled before the [try]. *)
Definition assemble_hessian (grad : vec -> result vec) : SM CovState matrix :=
  let* st := sm_get in
  let nparams := length (par st) in
  hessian_rows grad nparams (seq 0 nparams).

Definition inverting_msg : string := "Error inverting hessian".

Definition computeCovarianceMatrix (grad : vec -> result vec) : SM CovState matrix :=
  let* hess := assemble_hessian grad in
  match np_linalg_inv hess with
  | None => sm_raise (PyException inverting_msg)
  | Some cov => sm_ret cov
  end.

(** [numpy.matrix.diagonal] *)
Fixpoint diagonal_from (i : nat) (m : matrix) : vec :=
  match m with
  | [] => []
  | row :: m' =>
      match row !! i with
      | Some v => v :: diagonal_from (S i) m'
      | None => []
      end
  end.
Definition diagonal (m : matrix) : vec := diagonal_from 0 m.

Definition negative_diagonal_msg : string :=
  "Negative element in the diagonal of the covariance matrix. Try to reduce the polynomial grade.".

(** [Polynomial.computeCovarianceMatrix]: the outcome, the object after the
    call and the warnings printed. *)
Definition Polynomial_computeCovarianceMatrix (statisticGradient : vec -> result vec)
    (self : Polynomial) : result unit * Polynomial * list (nat * float) :=
  match computeCovarianceMatrix statisticGradient {| par := params self; printed := [] |} with
  | (Raise e, st) =>
      (Raise e,
       {| params := par st; degree := degree self; covMatrix := covMatrix self |},
       printed st)
  | (Ok cov, st) =>
      let self' := {| params := par st; degree := degree self; covMatrix := cov |} in
      let negativeElements := map (fun v => v <? 0) (diagonal cov) in
      if (0 <? count_nonzero negativeElements)%nat then
        (Raise (RuntimeError negative_diagonal_msg), self', printed st)
      else (Ok tt, self', printed st)
  end.

(** ** The polynomial fit (lines 270-355) *)

(** The loop [while(dof < 2 and len(initialGuess)>1)] of lines 321-325;
    every turn shortens the guess, so [fuel] turns are enough when [fuel] is
    the length of the guess. *)
Fixpoint lower_grade (fuel : nat) (dof : Z) (x y : vec) (initialGuess : vec)
    (polynomial : Polynomial) (logLikelihood : BkgLogLikelihood)
  : vec * Polynomial * BkgLogLikelihood :=
  match fuel with
  | O => (initialGuess, polynomial, logLikelihood)
  | S fuel' =>
      if (dof <? 2)%Z && (1 <? length initialGuess)%nat then
        let initialGuess := take (length initialGuess - 1) initialGuess in
        let polynomial := Polynomial_init initialGuess in
        let logLikelihood := BkgLogLikelihood_init x y polynomial in
        lower_grade fuel' dof x y initialGuess polynomial logLikelihood
      else (initialGuess, polynomial, logLikelihood)
  end.

(** Lines 316-326: the degrees of freedom and the lowering of the grade. *)
Definition check_dof (Nnonzero polGrade : nat) (x y : vec) (initialGuess : vec)
    (polynomial : Polynomial) (logLikelihood : BkgLogLikelihood)
  : vec * Polynomial * BkgLogLikelihood :=
  let dof := (Z.of_nat Nnonzero - (Z.of_nat polGrade + 1))%Z in
  if (dof <=? 2)%Z then
    lower_grade (length initialGuess) dof x y initialGuess polynomial logLikelihood
  else (initialGuess, polynomial, logLikelihood).

(** [_polyfit].  [numpy.polyfit] returns [polGrade+1] coefficients, so the
    guess is never empty.  The warnings printed by the covariance
    computation are not part of the returned value. *)
Definition _polyfit (x y : vec) (polGrade : nat) : result (Polynomial * float) :=
  let nonzeroMask := map (fun d => 0 <? d) y in
  let Nnonzero := count_nonzero nonzeroMask in
  if (Nnonzero =? 0)%nat then Ok (Polynomial_init [0.0], 0.0)
  else
    match np_polyfit x y polGrade with
    | Raise e => Raise e
    | Ok coefficients =>
        let initialGuess := rev coefficients in
        let polynomial := Polynomial_init initialGuess in
        let M := Polynomial_call polynomial x in
        let negativeMask := map (fun m => m <? 0) M in
        let '(initialGuess, polynomial) :=
          if (0 <? count_nonzero negativeMask)%nat then
            (* [initialGuess[0] = mean(y)] also changes [polynomial.params],
               which is the same array *)
            let initialGuess := <[0%nat := np_mean y]> initialGuess in
            let polynomial := setParams initialGuess polynomial in
            let meanx := np_mean x in
            (imap (fun k c => abs c / float_pow meanx k) initialGuess, polynomial)
          else (initialGuess, polynomial) in
        let logLikelihood := BkgLogLikelihood_init x y polynomial in
        let '(initialGuess, polynomial, logLikelihood) :=
          check_dof Nnonzero polGrade x y initialGuess polynomial logLikelihood in
        match fmin (fun p => fst (BkgLogLikelihood_call logLikelihood p)) initialGuess with
        | Raise e => Raise e
        | Ok finalEstimate =>
            match fst (BkgLogLikelihood_call logLikelihood finalEstimate) with
            | Raise e => Raise e
            | Ok minlogLikelihood =>
                let finalPolynomial := Polynomial_init finalEstimate in
                match Polynomial_computeCovarianceMatrix
                        (fun p => fst (getFreeDerivs logLikelihood p)) finalPolynomial with
                | (Raise e, _, _) => Raise e
                | (Ok _, finalPolynomial, _) => Ok (finalPolynomial, minlogLikelihood)
                end
            end
        end
    end.

(** ** Degree selection (lines 107-149) *)

Definition minGrade : nat := 0.
Definition maxGrade : nat := 4.
Definition deltaThreshold : float := 9.0.

(** [2*(x[0]-x[1])] over [zip(logLikelihoods[:-1], logLikelihoods[1:])] *)
Definition deltaLoglike (logLikelihoods : vec) : vec :=
  zip_with (fun a b => 2 * (a - b))
    (take (length logLikelihoods - 1) logLikelihoods) (drop 1 logLikelihoods).

(** Lines 138-145. *)
Definition bestGrade (deltaLoglike : vec) : nat :=
  let mask := map (fun d => deltaThreshold <=? d) deltaLoglike in
  if (length (nonzero mask) =? 0)%nat then 0%nat
  else match last (nonzero mask) with
       | Some g => (g + 1)%nat
       | None => 0%nat
       end.

(** The printing of the statistics is left out. *)
Definition _fitGlobalAndDetermineOptimumGrade (cnts bins : vec) : result nat :=
  match result_map
          (fun grade => match _polyfit bins cnts grade with
                        | Raise e => Raise e
                        | Ok (_, logLike) => Ok logLike
                        end)
          (seq minGrade (maxGrade + 1 - minGrade)) with
  | Raise e => Raise e
  | Ok logLikelihoods => Ok (bestGrade (deltaLoglike logLikelihoods))
  end.

(** *** The Cash statistic bin by bin, in the words of the spec *)

(** The model value of a bin after the precision fix and the clamp. *)
Definition clamped (m : float) : float :=
  let m1 := if abs m <=? tiny then np_sign m * tiny else m in
  if m1 <? 0 then 0 else m1.

(** The logarithm, extrapolated linearly at and below twice [tiny]. *)
Definition stabilized_log (m : float) : float :=
  if 2.0 * tiny <? m then np_log m else abs m / tiny + np_log tiny - 1.

(** [D * log(M)], zero when [D] is not positive. *)
Definition d_log_term (d logm : float) : float :=
  if 0 <? d then d * logm else 0.

Definition cash_term (m d : float) : float :=
  clamped m - d_log_term d (stabilized_log (clamped m)).

(** *** The covariance computation and the class invariant, in the words of
    the spec *)

(** A gradient function answers every parameter vector of [n] entries with
    [n] partial derivatives. *)
Definition well_formed_gradient (grad : vec -> result vec) (n : nat) : Prop :=
  forall p, length p = n -> exists g, grad p = Ok g /\ length g = n.

(** The spec's [NumericalError]: raised as [Exception] by the inversion and
    as [RuntimeError] by the check of the diagonal. *)
Definition NumericalError (e : exn) : bool :=
  match e with
  | PyException _ | RuntimeError _ => true
  | _ => false
  end.

(** Coefficient count and covariance shape agree with the stored degree. *)
Definition shape_ok (self : Polynomial) : Prop :=
  Z.of_nat (length (params self)) = (degree self + 1)%Z /\
  length (covMatrix self) = Z.to_nat (degree self + 1) /\
  Forall (fun row => length row = Z.to_nat (degree self + 1)) (covMatrix self).

(** The operations of a [Polynomial] after its construction. *)
Inductive operation : Type :=
| OpSetParams (new_params : vec)
| OpComputeCovarianceMatrix (statisticGradient : vec -> result vec).

(** One operation; an exception is left to the caller and the object lives on. *)
Definition apply_operation (o : operation) (self : Polynomial) : Polynomial :=
  match o with
  | OpSetParams new_params => setParams new_params self
  | OpComputeCovarianceMatrix grad =>
      snd (fst (Polynomial_computeCovarianceMatrix grad self))
  end.

Definition run_operations (ops : list operation) (self : Polynomial) : Polynomial :=
  fold_left (fun self o => apply_operation o self) ops self.

(** The operation inverts a Hessian and stores the inverse. *)
Definition stores_inverse (o : operation) (self : Polynomial) : bool :=
  match o with
  | OpSetParams _ => false
  | OpComputeCovarianceMatrix grad =>
      is_Ok (fst (computeCovarianceMatrix grad {| par := params self; printed := [] |}))
  end.

Fixpoint any_inverse_stored (ops : list operation) (self : Polynomial) : bool :=
  match ops with
  | [] => false
  | o :: rest => stores_inverse o self || any_inverse_stored rest (apply_operation o self)
  end.

(** [setParams] is given as many coefficients as the polynomial has. *)
Definition keeps_length (n : nat) (o : operation) : Prop :=
  match o with
  | OpSetParams new_params => length new_params = n
  | OpComputeCovarianceMatrix _ => True
  end.

(** [numpy.linalg.inv] returns a matrix of the shape of its square argument. *)
Definition inverse_keeps_shape : Prop :=
  forall h c, np_linalg_inv h = Some c ->
    length c = length h /\ Forall (fun row => length row = length h) c.

(** The row of the Hessian that the last step of a search gives. *)
Definition hessian_row (v : step_vars) : vec :=
  map (fun e => e / (2 * di v)) (zip_with sub (g_up v) (g_dn v)).

(** The search for parameter [i] ended on the convergence test of the
    source: [converged] is what [revised_step] answered for the last
    difference of the two gradients in coordinate [i] and the last step. *)
Definition ended_on_test (i : nat) (v : step_vars) : Prop :=
  exists delta_f,
    zip_with sub (g_up v) (g_dn v) !! i = Some delta_f /\
    converged v = fst (revised_step delta_f (di v)).

(** The searches of at most [max_iters] iterations for the parameters
    [indices], one after the other, from the parameter vector [p]: [vars]
    holds what each search leaves in its variables, [p_end] is the vector
    after the last one. *)
Fixpoint step_searches (grad : vec -> result vec) (indices : list nat) (p : vec)
    (vars : list step_vars) (p_end : vec) : Prop :=
  match indices, vars with
  | [], [] => p_end = p
  | i :: rest, v :: vars' =>
      exists st1,
        step_search max_iters grad i initial_step_size None {| par := p; printed := [] |} =
          (Ok v, st1) /\
        ended_on_test i v /\
        step_searches grad rest (par st1) vars' p_end
  | _, _ => False
  end.

(** One warning for each parameter whose search ended without convergence,
    in the order of the parameters, with the last step. *)
Definition warnings_of (indices : list nat) (vars : list step_vars) : list (nat * float) :=
  omap (fun iv => if converged iv.2 then None else Some (iv.1, di iv.2))
       (zip indices vars).

(** *** numpy masks, element by element *)

Lemma count_nonzero_zero (P : float -> bool) (v : vec) :
  (0 <? count_nonzero (map P v))%nat = false -> Forall (fun e => P e = false) v.
Proof.
  unfold count_nonzero. induction v as [|e v IH]; simpl; intros H; [constructor|].
  destruct (P e) eqn:He.
  - rewrite filter_cons_True in H by reflexivity. discriminate.
  - rewrite filter_cons_False in H by discriminate. constructor; auto.
Qed.

Lemma np_put_map (P : float -> bool) (g : float -> float) (M : vec) :
  forall base, length base = length M ->
    np_put (map P M) base (map g (np_select (map P M) M)) =
    zip_with (fun m b => if P m then g m else b) M base.
Proof.
  induction M as [|m M IH]; intros [|b base] Hlen; simpl in *; try discriminate;
    [reflexivity|].
  destruct (P m); simpl; rewrite IH by lia; reflexivity.
Qed.

Lemma np_put_scalar_map (Q : float -> bool) (c : float) (v : vec) :
  np_put_scalar (map Q v) v c = map (fun e => if Q e then c else e) v.
Proof. induction v as [|e v IH]; simpl; [|rewrite IH]; reflexivity. Qed.

Lemma zip_with_diag (f : float -> float -> float) (v : vec) :
  zip_with f v v = map (fun e => f e e) v.
Proof. induction v as [|e v IH]; simpl; [|rewrite IH]; reflexivity. Qed.

Lemma map_if_all_false (P : float -> bool) (g : float -> float) (v : vec) :
  Forall (fun e => P e = false) v -> map (fun e => if P e then g e else e) v = v.
Proof.
  induction 1 as [|e v He _ IH]; simpl; [reflexivity|]. rewrite He, IH. reflexivity.
Qed.

Lemma np_put_product (y : vec) :
  forall logM, length logM = length y ->
    np_put (map (fun d => 0 <? d) y) (np_zeros (length y))
      (zip_with mul (np_select (map (fun d => 0 <? d) y) y)
                    (np_select (map (fun d => 0 <? d) y) logM)) =
    zip_with d_log_term y logM.
Proof.
  unfold np_zeros, d_log_term.
  induction y as [|d y IH]; intros [|l logM] Hlen; simpl in *; try discriminate;
    [reflexivity|].
  destruct (0 <? d); simpl; rewrite IH by lia; reflexivity.
Qed.

(** [_fixPrecision], the clamp and [_evalLogM], element by element. *)
Lemma fixPrecision_value_map (v : vec) :
  v <> [] ->
  fixPrecision_value v =
    Ok (map (fun e => if abs e <=? tiny then np_sign e * tiny else e) v).
Proof.
  intros Hne. unfold fixPrecision_value. destruct v as [|e0 v0]; [congruence|].
  set (v := e0 :: v0).
  destruct (Nat.ltb 0 (count_nonzero (map (fun e => abs e <=? tiny) v))) eqn:Hc.
  - rewrite (np_put_map (fun e => abs e <=? tiny) (fun e => np_sign e * tiny) v v eq_refl).
    rewrite (zip_with_diag (fun m b => if abs m <=? tiny then np_sign m * tiny else b)).
    reflexivity.
  - apply count_nonzero_zero in Hc.
    rewrite (map_if_all_false (fun e => abs e <=? tiny) (fun e => np_sign e * tiny) v Hc).
    reflexivity.
Qed.

Lemma evalLogM_map (M : vec) :
  M <> [] -> _evalLogM M = Ok (map stabilized_log M).
Proof.
  intros Hne. unfold _evalLogM. destruct M as [|m0 M0]; [congruence|].
  set (M := m0 :: M0).
  destruct (Nat.ltb 0 (count_nonzero (map negb (map (fun m => 2.0 * tiny <? m) M)))) eqn:Hc.
  - f_equal. rewrite map_map.
    rewrite (np_put_map (fun m => negb (2.0 * tiny <? m))
               (fun m => abs m / tiny + np_log tiny - 1) M)
      by (unfold np_zeros; rewrite length_replicate; reflexivity).
    rewrite (np_put_map (fun m => 2.0 * tiny <? m) np_log M)
      by (rewrite length_zip_with; unfold np_zeros; rewrite length_replicate; lia).
    unfold stabilized_log, np_zeros. clearbody M. clear.
    induction M as [|m M IH]; simpl; [reflexivity|].
    f_equal; [destruct (_ <? m); reflexivity | exact IH].
  - rewrite map_map in Hc.
    apply (count_nonzero_zero (fun m => negb (2.0 * tiny <? m))) in Hc.
    f_equal. unfold stabilized_log. clearbody M.
    induction Hc as [|m M Hm _ IH]; simpl; [reflexivity|].
    apply negb_false_iff in Hm. f_equal; [|exact IH].
    change (4.4501477170144028e-308 <? m) with (2.0 * tiny <? m).
    rewrite Hm. reflexivity.
Qed.

Lemma d_times_logM_zip (y logM : vec) :
  length logM = length y ->
  d_times_logM y logM = Ok (zip_with d_log_term y logM).
Proof.
  intros Hlen. unfold d_times_logM, np_getmask.
  rewrite length_map.
  replace (length y =? length logM)%nat with true
    by (symmetry; apply Nat.eqb_eq; lia).
  rewrite np_put_product by exact Hlen. reflexivity.
Qed.

Lemma clamped_not_negative (m : float) : (clamped m <? 0) = false.
Proof.
  unfold clamped.
  destruct ((if abs m <=? tiny then np_sign m * tiny else m) <? 0) eqn:E;
    [reflexivity | exact E].
Qed.

Lemma d_log_term_zero (d logm : float) : (d =? 0) = true -> d_log_term d logm = 0.
Proof.
  intros H. unfold d_log_term. rewrite (float_eq_zero_not_pos _ H). reflexivity.
Qed.

Lemma np_binop_same_length (f : float -> float -> float) (a b : vec) :
  length a = length b -> np_binop f a b = Ok (zip_with f a b).
Proof.
  intros H. unfold np_binop. rewrite H, Nat.eqb_refl. reflexivity.
Qed.

Lemma model_times_unit_exposure (h : float -> float) (x : vec) :
  zip_with mul (map h x) (map (fun z => z + 1.0) (np_zeros (length x))) =
  map (fun xi => h xi * 1) x.
Proof. induction x as [|xi x IH]; simpl; [|f_equal; exact IH]; reflexivity. Qed.

Lemma clamp_negative_values (v : vec) :
  (if Nat.ltb 0 (count_nonzero (map (fun m => m <? 0) v))
   then np_put_scalar (map (fun m => m <? 0) v) v 0.0 else v) =
  map (fun m => if m <? 0 then 0 else m) v.
Proof.
  destruct (Nat.ltb 0 (count_nonzero (map (fun m => m <? 0) v))) eqn:Hc.
  - apply np_put_scalar_map.
  - apply count_nonzero_zero in Hc. symmetry.
    apply (map_if_all_false (fun m => m <? 0) (fun _ => 0) v Hc).
Qed.

Lemma cash_terms_zip (M y : vec) :
  zip_with sub (map clamped M)
    (zip_with d_log_term y (map stabilized_log (map clamped M))) =
  zip_with cash_term M y.
Proof.
  revert y. induction M as [|m M IH]; intros [|d y]; simpl; try reflexivity.
  f_equal. apply IH.
Qed.

(** C3. On a non-empty series of bins with one count per bin, the Cash
    objective is the sum over the bins of [M - D*log(M)], where [M] is the
    model value with its negative values clamped to zero, the logarithm is
    the stabilized one, which is linear at and below twice [tiny], and the
    term [D*log(M)] is exactly zero in every bin whose count is zero,
    whatever the logarithm of that bin is. *)
Theorem cash_call_clamps_and_skips_empty_bins
    (x y : vec) (model : Polynomial) (parameters : vec) :
  x <> [] ->
  length y = length x ->
  fst (BkgLogLikelihood_call (BkgLogLikelihood_init x y model) parameters) =
    Ok (np_sum (zip_with cash_term (map (fun xi => horner parameters xi * 1) x) y)) /\
  (forall m, (clamped m <? 0) = false /\ ((m <? 0) = true -> clamped m = 0)) /\
  (forall m, (2.0 * tiny <? m) = false ->
             stabilized_log m = abs m / tiny + np_log tiny - 1) /\
  (forall m d, (d =? 0) = true -> d_log_term d (stabilized_log (clamped m)) = 0) /\
  (forall logM, length logM = length y ->
     exists v, d_times_logM y logM = Ok v /\
       forall i d, y !! i = Some d -> (d =? 0) = true -> v !! i = Some 0).
Proof.
  intros Hne Hlen. split; [|split; [|split; [|split]]].
  - unfold BkgLogLikelihood_call, BkgLogLikelihood_init, with_model_params. simpl.
    unfold cash_statistic, sm_bind, sm_lift, sm_ret, alloc, read, write, _fixPrecision.
    simpl. unfold Polynomial_call. simpl.
    rewrite np_binop_same_length
      by (rewrite !length_map; unfold np_zeros; rewrite length_replicate; reflexivity).
    rewrite model_times_unit_exposure.
    set (M0 := map (fun xi => horner parameters xi * 1) x).
    assert (HM0 : M0 <> []).
    { unfold M0. destruct x; [congruence | discriminate]. }
    simpl. unfold sm_bind, sm_lift, sm_ret, read, write. simpl.
    rewrite (fixPrecision_value_map M0 HM0). simpl.
    set (M1 := map (fun e => if abs e <=? tiny then np_sign e * tiny else e) M0).
    assert (HM2 : map (fun m => if m <? 0 then 0 else m) M1 = map clamped M0).
    { unfold M1. rewrite map_map. reflexivity. }
    assert (Hlen2 : length (map clamped M0) = length y).
    { unfold M0. rewrite !length_map. lia. }
    assert (Hne2 : map clamped M0 <> []).
    { destruct M0; [congruence | discriminate]. }
    pose proof (clamp_negative_values M1) as Hcl. rewrite HM2 in Hcl.
    clearbody M1.
    destruct (Nat.ltb 0 (count_nonzero (map (fun m => m <? 0) M1))); simpl;
      rewrite Hcl, (evalLogM_map _ Hne2), d_times_logM_zip
        by (rewrite length_map; exact Hlen2);
      rewrite np_binop_same_length
        by (rewrite length_zip_with, !length_map; rewrite !length_map in Hlen2; lia);
      rewrite cash_terms_zip; reflexivity.
  - intros m. split; [apply clamped_not_negative|].
    intros Hm. unfold clamped, np_sign.
    rewrite (float_neg_not_pos _ Hm), Hm.
    destruct (abs m <=? tiny); [reflexivity | rewrite Hm; reflexivity].
  - intros m Hm. unfold stabilized_log. rewrite Hm. reflexivity.
  - intros m d Hd. apply d_log_term_zero. exact Hd.
  - intros logM HlogM. exists (zip_with d_log_term y logM).
    split; [apply d_times_logM_zip; exact HlogM|].
    intros i d Hi Hd.
    destruct (logM !! i) as [l|] eqn:Hl.
    + rewrite lookup_zip_with, Hi. simpl. rewrite Hl. simpl.
      rewrite (d_log_term_zero _ _ Hd). reflexivity.
    + apply lookup_ge_None in Hl. apply lookup_lt_Some in Hi. lia.
Qed.

(** *** Lowering the grade *)

Lemma lower_grade_enough_dof fuel dof x y initialGuess polynomial logLikelihood :
  (2 <= dof)%Z ->
  lower_grade fuel dof x y initialGuess polynomial logLikelihood =
    (initialGuess, polynomial, logLikelihood).
Proof.
  intros Hdof. destruct fuel; simpl; [reflexivity|].
  replace (dof <? 2)%Z with false by (symmetry; apply Z.ltb_ge; lia).
  reflexivity.
Qed.

Lemma lower_grade_few_dof fuel dof x y :
  forall initialGuess polynomial logLikelihood,
    (dof < 2)%Z ->
    (length initialGuess <= fuel)%nat ->
    initialGuess <> [] ->
    (lower_grade fuel dof x y initialGuess polynomial logLikelihood).1.1 =
      take 1 initialGuess.
Proof.
  induction fuel as [|fuel IH]; intros guess pol ll Hdof Hfuel Hne.
  - destruct guess; [congruence | simpl in Hfuel; lia].
  - simpl. replace (dof <? 2)%Z with true by (symmetry; apply Z.ltb_lt; lia).
    simpl. destruct (1 <? length guess)%nat eqn:Hlen.
    + apply Nat.ltb_lt in Hlen.
      rewrite IH.
      * rewrite take_take. f_equal. lia.
      * exact Hdof.
      * rewrite length_take. lia.
      * intros Hnil. apply (f_equal length) in Hnil.
        rewrite length_take in Hnil. simpl in Hnil. lia.
    + apply Nat.ltb_ge in Hlen. simpl.
      destruct guess as [|c [|c' guess]]; [congruence | reflexivity | simpl in Hlen; lia].
Qed.

(** What lines 316-326 do: with fewer than two degrees of freedom the guess
    is cut down to its constant term, and otherwise nothing is dropped. *)
Lemma check_dof_outcome Nnonzero polGrade x y initialGuess polynomial logLikelihood :
  initialGuess <> [] ->
  (check_dof Nnonzero polGrade x y initialGuess polynomial logLikelihood).1.1 =
    if (Z.of_nat Nnonzero - (Z.of_nat polGrade + 1) <? 2)%Z
    then take 1 initialGuess else initialGuess.
Proof.
  intros Hne. unfold check_dof.
  set (dof := (Z.of_nat Nnonzero - (Z.of_nat polGrade + 1))%Z).
  destruct (dof <? 2)%Z eqn:Hlt.
  - apply Z.ltb_lt in Hlt.
    replace (dof <=? 2)%Z with true by (symmetry; apply Z.leb_le; lia).
    apply lower_grade_few_dof; auto.
  - apply Z.ltb_ge in Hlt.
    destruct (dof <=? 2)%Z; [rewrite lower_grade_enough_dof by exact Hlt|]; reflexivity.
Qed.

(** C6, on the code: four non-empty bins and grade 3 give [dof = 0]; the
    guess of four coefficients is cut down to the constant alone, although
    with two coefficients the degrees of freedom, [4 - 2], would be 2. *)
Lemma check_dof_not_recomputed (x y : vec) (c0 c1 c2 c3 : float)
    (polynomial : Polynomial) (logLikelihood : BkgLogLikelihood) :
  (check_dof 4 3 x y [c0; c1; c2; c3] polynomial logLikelihood).1.1 = [c0] /\
  (Z.of_nat 4 - Z.of_nat (length [c0; c1]) >=? 2)%Z = true.
Proof. split; reflexivity. Qed.

(** *** Degree selection *)

Lemma last_nonzero_from mask :
  forall i,
    match last (nonzero_from i mask) with
    | None => forall k, mask !! k = Some true -> False
    | Some g =>
        (i <= g)%nat /\ mask !! (g - i)%nat = Some true /\
        forall k, (g - i < k)%nat -> mask !! k = Some true -> False
    end.
Proof.
  induction mask as [|b mask IH]; intros i; simpl.
  - intros k Hk. discriminate.
  - specialize (IH (S i)).
    destruct b.
    + rewrite last_cons.
      destruct (last (nonzero_from (S i) mask)) as [g|].
      * destruct IH as (Hle & Hg & Hmax). split; [lia|]. split.
        -- replace (g - i)%nat with (S (g - S i)) by lia. exact Hg.
        -- intros k Hk Hm. destruct k as [|k]; [lia|].
           apply (Hmax k); [lia | exact Hm].
      * split; [lia|]. rewrite Nat.sub_diag. split; [reflexivity|].
        intros k Hk Hm. destruct k as [|k]; [lia|]. apply (IH k Hm).
    + destruct (last (nonzero_from (S i) mask)) as [g|].
      * destruct IH as (Hle & Hg & Hmax). split; [lia|]. split.
        -- replace (g - i)%nat with (S (g - S i)) by lia. exact Hg.
        -- intros k Hk Hm. destruct k as [|k]; [lia|].
           apply (Hmax k); [lia | exact Hm].
      * intros k Hm. destruct k as [|k]; [discriminate|]. apply (IH k Hm).
Qed.

(** The grade chosen from the statistics: one more than the last index whose
    statistic is at least the threshold, and 0 when there is none. *)
Lemma bestGrade_spec (deltas : vec) :
  (bestGrade deltas = 0%nat /\
   forall g d, deltas !! g = Some d -> (deltaThreshold <=? d) = false) \/
  (exists g d,
     bestGrade deltas = (g + 1)%nat /\ deltas !! g = Some d /\
     (deltaThreshold <=? d) = true /\
     forall g' d', (g < g')%nat -> deltas !! g' = Some d' ->
       (deltaThreshold <=? d') = false).
Proof.
  unfold bestGrade, nonzero.
  pose proof (last_nonzero_from (map (fun d => deltaThreshold <=? d) deltas) 0) as H.
  destruct (last (nonzero_from 0 (map (fun d => deltaThreshold <=? d) deltas)))
    as [g|] eqn:Hlast.
  - right. destruct H as (_ & Hg & Hmax). rewrite Nat.sub_0_r in Hg.
    rewrite list_lookup_fmap in Hg.
    destruct (deltas !! g) as [d|] eqn:Hd; [|discriminate]. simpl in Hg.
    exists g, d.
    assert (Hne : nonzero_from 0 (map (fun d => deltaThreshold <=? d) deltas) <> []).
    { intros Hnil. rewrite Hnil in Hlast. discriminate. }
    destruct (nonzero_from 0 (map (fun d => deltaThreshold <=? d) deltas)); [congruence|].
    simpl. split; [reflexivity|]. split; [exact Hd|]. split; [congruence|].
    intros g' d' Hlt Hd'.
    destruct (deltaThreshold <=? d') eqn:E; [|reflexivity].
    exfalso. apply (Hmax g'); [lia|].
    rewrite list_lookup_fmap, Hd'. simpl. rewrite E. reflexivity.
  - left. apply last_None in Hlast. rewrite Hlast. simpl. split; [reflexivity|].
    intros g d Hd. destruct (deltaThreshold <=? d) eqn:E; [|reflexivity].
    exfalso. apply (H g). rewrite list_lookup_fmap, Hd. simpl. rewrite E. reflexivity.
Qed.


(** *** The covariance computation *)

Lemma count_nonzero_existsb (P : float -> bool) (v : vec) :
  (0 <? count_nonzero (map P v))%nat = existsb P v.
Proof.
  unfold count_nonzero. induction v as [|e v IH]; simpl; [reflexivity|].
  destruct (P e) eqn:He.
  - rewrite filter_cons_True by reflexivity. reflexivity.
  - rewrite filter_cons_False by discriminate. exact IH.
Qed.

Lemma step_search_trace (grad : vec -> result vec) (n i : nat) :
  well_formed_gradient grad n -> (i < n)%nat ->
  forall iters step last p,
    length p = n ->
    match last with
    | Some vars => length (g_up vars) = n /\ length (g_dn vars) = n /\ ended_on_test i vars
    | None => iters <> 0%nat
    end ->
    exists vars p',
      (forall pr, step_search iters grad i step last {| par := p; printed := pr |} =
                    (Ok vars, {| par := p'; printed := pr |})) /\
      length (g_up vars) = n /\ length (g_dn vars) = n /\
      length p' = n /\ ended_on_test i vars.
Proof.
  intros Hwf Hi. induction iters as [|iters IH]; intros step last p Hpar Hlast.
  - destruct last as [vars|]; [|congruence]. destruct Hlast as (Hu & Hd & Ht).
    exists vars, p. split; [intros pr; reflexivity|]. auto.
  - destruct (Hwf (alter (fun q => q + step) i p)) as (gu & Hgu & Hlu);
      [rewrite length_alter; exact Hpar|].
    destruct (Hwf (alter (fun q => q - 2 * step) i (alter (fun q => q + step) i p)))
      as (gd & Hgd & Hld); [rewrite !length_alter; exact Hpar|].
    destruct (zip_with sub gu gd !! i) as [delta_f|] eqn:Hdelta;
      [|apply lookup_ge_None in Hdelta; rewrite length_zip_with in Hdelta; lia].
    destruct (revised_step delta_f step) as [conv new_step] eqn:Hrev.
    assert (Htest : ended_on_test i
                      {| g_up := gu; g_dn := gd; di := step; converged := conv |}).
    { exists delta_f. simpl. rewrite Hrev. split; [exact Hdelta | reflexivity]. }
    destruct conv.
    + exists {| g_up := gu; g_dn := gd; di := step; converged := true |},
             (alter (fun q => q + step) i
                (alter (fun q => q - 2 * step) i (alter (fun q => q + step) i p))).
      split; [|simpl; rewrite !length_alter; auto].
      intros pr. simpl. unfold sm_bind, sm_modify, sm_get, sm_lift. simpl.
      rewrite Hgu, Hgd. rewrite np_binop_same_length by lia.
      unfold getitem. rewrite Hdelta, Hrev. reflexivity.
    + destruct (IH new_step
                  (Some {| g_up := gu; g_dn := gd; di := step; converged := false |})
                  (alter (fun q => q + step) i
                     (alter (fun q => q - 2 * step) i (alter (fun q => q + step) i p))))
        as (vars & p' & Hrun & Hu & Hd & Hp & Ht).
      * rewrite !length_alter. exact Hpar.
      * simpl. auto.
      * exists vars, p'. split; [|auto].
        intros pr. simpl. unfold sm_bind, sm_modify, sm_get, sm_lift. simpl.
        rewrite Hgu, Hgd. rewrite np_binop_same_length by lia.
        unfold getitem. rewrite Hdelta, Hrev. apply Hrun.
Qed.

Lemma warnings_of_cons (i : nat) (rest : list nat) (v : step_vars)
    (vars : list step_vars) :
  warnings_of (i :: rest) (v :: vars) =
    (if converged v then [] else [(i, di v)]) ++ warnings_of rest vars.
Proof. unfold warnings_of. simpl. destruct (converged v); reflexivity. Qed.

Lemma hessian_rows_trace (grad : vec -> result vec) (n : nat) :
  well_formed_gradient grad n ->
  forall indices p pr,
    Forall (fun i => (i < n)%nat) indices ->
    length p = n ->
    exists vars p',
      hessian_rows grad n indices {| par := p; printed := pr |} =
        (Ok (map hessian_row vars),
         {| par := p'; printed := pr ++ warnings_of indices vars |}) /\
      step_searches grad indices p vars p' /\
      length vars = length indices /\
      length p' = n.
Proof.
  intros Hwf. induction indices as [|i rest IH]; intros p pr Hall Hpar.
  - exists [], p. simpl. unfold sm_ret, warnings_of. simpl. rewrite app_nil_r. auto.
  - apply Forall_cons in Hall as [Hi Hrest].
    destruct (step_search_trace grad n i Hwf Hi max_iters initial_step_size None p Hpar)
      as (v & p1 & Hrun & Hu & Hd & Hpar1 & Ht); [discriminate|].
    destruct (IH p1 (pr ++ (if converged v then [] else [(i, di v)])) Hrest Hpar1)
      as (vars & p' & Hrows & Htrace & Hlen & Hpar').
    exists (v :: vars), p'.
    split; [|split; [|split; [simpl; lia | exact Hpar']]].
    + cbn [hessian_rows]. unfold sm_bind at 1. rewrite (Hrun pr).
      unfold sm_bind, sm_lift.
      rewrite np_binop_same_length by lia.
      unfold hess_row. rewrite length_map, length_zip_with.
      replace (length (g_up v) `min` length (g_dn v) =? n)%nat with true
        by (symmetry; apply Nat.eqb_eq; lia).
      rewrite warnings_of_cons.
      destruct (converged v).
      * unfold sm_ret at 1. rewrite app_nil_r in Hrows. rewrite Hrows. reflexivity.
      * unfold sm_modify, print_warning. cbn [par printed].
        rewrite Hrows, <- app_assoc. reflexivity.
    + cbn [step_searches]. exists {| par := p1; printed := [] |}.
      split; [apply Hrun|]. split; [exact Ht | exact Htrace].
Qed.

(** C5. With a gradient function that answers every parameter vector, the
    step size of every parameter is searched in at most [max_iters]
    iterations and the Hessian is always assembled: its rows are the
    finite differences of the last step of each search, converged or not,
    and one warning is printed for each parameter whose search ended
    without convergence, and for no other.  The covariance computation of
    the polynomial then fails in two cases only: the inversion of that
    Hessian raises, or a diagonal entry of the inverse is negative.  In
    every other case the inverse is stored and the call returns. *)
Theorem covariance_numerical_errors (grad : vec -> result vec) (self : Polynomial) :
  well_formed_gradient grad (length (params self)) ->
  exists vars hess st,
    step_searches grad (seq 0 (length (params self))) (params self) vars (par st) /\
    hess = map hessian_row vars /\
    printed st = warnings_of (seq 0 (length (params self))) vars /\
    assemble_hessian grad {| par := params self; printed := [] |} = (Ok hess, st) /\
    length hess = length (params self) /\
    Polynomial_computeCovarianceMatrix grad self =
      match np_linalg_inv hess with
      | None =>
          (Raise (PyException inverting_msg),
           {| params := par st; degree := degree self; covMatrix := covMatrix self |},
           printed st)
      | Some cov =>
          (if existsb (fun v => v <? 0) (diagonal cov)
           then Raise (RuntimeError negative_diagonal_msg) else Ok tt,
           {| params := par st; degree := degree self; covMatrix := cov |},
           printed st)
      end /\
    NumericalError (PyException inverting_msg) = true /\
    NumericalError (RuntimeError negative_diagonal_msg) = true.
Proof.
  intros Hwf.
  destruct (hessian_rows_trace grad (length (params self)) Hwf
              (seq 0 (length (params self))) (params self) [])
    as (vars & p' & Hrows & Htrace & Hlen & _).
  { apply Forall_forall. intros i Hi. apply elem_of_seq in Hi. lia. }
  { reflexivity. }
  rewrite length_seq in Hlen. rewrite app_nil_l in Hrows.
  set (st := {| par := p';
                printed := warnings_of (seq 0 (length (params self))) vars |}) in *.
  assert (Hasm : assemble_hessian grad {| par := params self; printed := [] |}
                 = (Ok (map hessian_row vars), st)).
  { unfold assemble_hessian, sm_bind, sm_get. simpl. exact Hrows. }
  exists vars, (map hessian_row vars), st.
  split; [exact Htrace|]. split; [reflexivity|]. split; [reflexivity|].
  split; [exact Hasm|]. split; [rewrite length_map; exact Hlen|].
  split; [|split; reflexivity].
  unfold Polynomial_computeCovarianceMatrix, computeCovarianceMatrix, sm_bind.
  rewrite Hasm.
  destruct (np_linalg_inv (map hessian_row vars)) as [cov|]; [|reflexivity].
  unfold sm_ret. rewrite count_nonzero_existsb.
  destruct (existsb (fun v => v <? 0) (diagonal cov)); reflexivity.
Qed.

(** The gradient that [_polyfit] hands over, [logLikelihood.getFreeDerivs], is
    such a gradient function: on a non-empty series with one count per bin it
    answers every parameter vector with one derivative per coefficient of
    the model. *)
Lemma result_map_Forall {A B} (f : A -> result B) (P : A -> Prop) (Q : B -> Prop)
    (l : list A) :
  Forall P l ->
  (forall a, P a -> exists b, f a = Ok b /\ Q b) ->
  exists bs, result_map f l = Ok bs /\ length bs = length l /\ Forall Q bs.
Proof.
  intros HP Hf. induction HP as [|a l Ha _ IH]; simpl.
  - exists []. auto.
  - destruct (Hf a Ha) as (b & -> & Hb). destruct IH as (bs & -> & Hlen & HQ).
    exists (b :: bs). simpl. auto.
Qed.

Lemma fixPrecision_value_length (v : vec) :
  v <> [] -> exists v', fixPrecision_value v = Ok v' /\ length v' = length v.
Proof.
  intros Hne. rewrite (fixPrecision_value_map v Hne).
  eexists. split; [reflexivity|]. apply length_map.
Qed.

Lemma y_divided_M_length (y M : vec) :
  length M = length y ->
  exists q, y_divided_M y M = Ok q /\ length q = length y.
Proof.
  intros Hlen. unfold y_divided_M, np_getmask. rewrite length_map.
  replace (length y =? length M)%nat with true by (symmetry; apply Nat.eqb_eq; lia).
  eexists. split; [reflexivity|].
  unfold np_zeros.
  generalize (zip_with div (np_select (map (fun d => 0 <? d) y) y)
                (np_select (map (fun d => 0 <? d) y) M)).
  clear. induction y as [|d y IH]; intros values; simpl; [reflexivity|].
  destruct (0 <? d); simpl.
  - destruct values as [|c values]; simpl; [rewrite length_replicate; reflexivity|].
    rewrite IH. reflexivity.
  - rewrite IH. reflexivity.
Qed.

Lemma getFreeDerivs_well_formed (xs ys : vec) (polynomial : Polynomial) :
  xs <> [] ->
  length ys = length xs ->
  (0 <= degree polynomial)%Z ->
  forall p, exists g,
    fst (getFreeDerivs (BkgLogLikelihood_init xs ys polynomial) p) = Ok g /\
    length g = Z.to_nat (degree polynomial + 1).
Proof.
  intros Hne Hlen Hdeg p.
  unfold getFreeDerivs, BkgLogLikelihood_init, with_model_params, Polynomial_getFreeDerivs,
    Polynomial_call. cbn [fst x y model exposure setParams degree params].
  set (N := Z.to_nat (degree polynomial + 1)).
  set (expo := map (fun z => z + 1.0) (np_zeros (length xs))).
  assert (Hexpo : length expo = length xs).
  { unfold expo, np_zeros. rewrite length_map, length_replicate. reflexivity. }
  set (rows := map (fun i => map (fun xx => float_pow xx i) xs) (seq 0 N)).
  assert (Hrows : Forall (fun row => length row = length xs) rows).
  { unfold rows. apply Forall_map. apply Forall_forall. intros i _. apply length_map. }
  assert (Hnrows : length rows = N).
  { unfold rows. rewrite length_map, length_seq. reflexivity. }
  destruct (result_map_Forall (fun row => np_binop mul row expo)
              (fun row => length row = length xs) (fun row => length row = length xs)
              rows Hrows) as (modelDerivs & Hmd & Hmdlen & Hmdrows).
  { intros row Hrow. exists (zip_with mul row expo). split.
    - apply np_binop_same_length. lia.
    - rewrite length_zip_with. lia. }
  assert (Hmatch : match rows with
                   | [] => match np_binop mul [] expo with
                           | Raise e => Raise e
                           | Ok _ => Ok []
                           end
                   | _ :: _ => result_map (fun row => np_binop mul row expo) rows
                   end = Ok modelDerivs).
  { destruct rows as [|r rows']; [|exact Hmd].
    simpl in Hnrows. unfold N in Hnrows. lia. }
  rewrite Hmatch.
  rewrite np_binop_same_length by (rewrite length_map; lia).
  destruct (fixPrecision_value_length (zip_with mul (map (horner p) xs) expo))
    as (M & -> & HM).
  { destruct xs as [|x0 x']; [congruence|]. unfold expo. discriminate. }
  rewrite length_zip_with, length_map in HM.
  destruct (y_divided_M_length ys M) as (q & -> & Hq); [lia|].
  destruct (result_map_Forall
              (fun row =>
                 match fixPrecision_value row with
                 | Raise e => Raise e
                 | Ok thisModelDerivs =>
                     match np_binop mul thisModelDerivs (map (fun q => 1.0 - q) q) with
                     | Raise e => Raise e
                     | Ok products => Ok (np_sum products)
                     end
                 end)
              (fun row => length row = length xs) (fun _ => True)
              modelDerivs Hmdrows) as (g & Hg & Hglen & _).
  { intros row Hrow.
    destruct (fixPrecision_value_length row) as (row' & -> & Hrow').
    { destruct row; [|discriminate]. destruct xs; [congruence | discriminate]. }
    rewrite np_binop_same_length by (rewrite length_map; lia).
    eexists. split; [reflexivity | exact I]. }
  exists g. split; [exact Hg | lia].
Qed.

Lemma fit_gradient_well_formed (xs ys : vec) (polynomial : Polynomial) :
  xs <> [] ->
  length ys = length xs ->
  (0 <= degree polynomial)%Z ->
  well_formed_gradient
    (fun p => fst (getFreeDerivs (BkgLogLikelihood_init xs ys polynomial) p))
    (Z.to_nat (degree polynomial + 1)).
Proof.
  intros Hne Hlen Hdeg p _. apply getFreeDerivs_well_formed; assumption.
Qed.

(** *** The invariant of [Polynomial] *)

Lemma Polynomial_init_shape_ok (params0 : vec) : shape_ok (Polynomial_init params0).
Proof.
  unfold shape_ok, Polynomial_init, np_zeros2, np_zeros. simpl.
  replace (Z.to_nat (Z.of_nat (length params0) - 1 + 1)) with (length params0) by lia.
  split; [lia|]. split; [apply length_replicate|].
  apply Forall_replicate. apply length_replicate.
Qed.

Lemma step_search_par_length (grad : vec -> result vec) (i : nat) :
  forall iters step last st,
    length (par (step_search iters grad i step last st).2) = length (par st).
Proof.
  induction iters as [|iters IH]; intros step last st; simpl.
  - destruct last; reflexivity.
  - unfold sm_bind, sm_modify, sm_get, sm_lift. simpl.
    destruct (grad (alter (fun p => p + step) i (par st))) as [gu|e]; simpl;
      [|rewrite length_alter; reflexivity].
    destruct (grad (alter (fun p => p - 2 * step) i
                      (alter (fun p => p + step) i (par st)))) as [gd|e]; simpl;
      [|rewrite !length_alter; reflexivity].
    destruct (np_binop sub gu gd) as [diff|e]; simpl;
      [|rewrite !length_alter; reflexivity].
    destruct (getitem diff i) as [delta_f|e]; simpl;
      [|rewrite !length_alter; reflexivity].
    destruct (revised_step delta_f step) as [conv new_step]. destruct conv; simpl.
    + rewrite !length_alter. reflexivity.
    + rewrite IH. simpl. rewrite !length_alter. reflexivity.
Qed.

Lemma hessian_rows_shape (grad : vec -> result vec) (n : nat) :
  forall indices st,
    length (par (hessian_rows grad n indices st).2) = length (par st) /\
    forall rows, (hessian_rows grad n indices st).1 = Ok rows ->
      length rows = length indices /\ Forall (fun row => length row = n) rows.
Proof.
  induction indices as [|i rest IH]; intros st.
  - simpl. unfold sm_ret. simpl. split; [reflexivity|].
    intros rows [= <-]. split; [reflexivity | constructor].
  - cbn [hessian_rows]. unfold sm_bind, sm_lift. cbn beta.
    pose proof (step_search_par_length grad i max_iters initial_step_size None st) as Hp.
    destruct (step_search max_iters grad i initial_step_size None st) as [[vars|e] st1];
      simpl in Hp; [|simpl; split; [exact Hp | intros ? [=]]].
    destruct (np_binop sub (g_up vars) (g_dn vars)) as [diff|e];
      [|simpl; split; [exact Hp | intros ? [=]]].
    destruct (hess_row n (map (fun e => e / (2 * di vars)) diff)) as [row|e] eqn:Hrow;
      [|simpl; split; [exact Hp | intros ? [=]]].
    assert (Hlrow : length row = n).
    { unfold hess_row in Hrow.
      destruct (Nat.eqb (length (map (fun e => e / (2 * di vars)) diff)) n) eqn:E.
      - injection Hrow as <-. apply Nat.eqb_eq. exact E.
      - destruct (map (fun e => e / (2 * di vars)) diff) as [|r0 [|r1 r]]; try discriminate.
        injection Hrow as <-. apply length_replicate. }
    set (st2 := if converged vars then st1 else print_warning i (di vars) st1).
    assert (Hst2 : (if converged vars then sm_ret tt
                    else sm_modify (print_warning i (di vars))) st1 = (Ok tt, st2)).
    { unfold st2. destruct (converged vars); reflexivity. }
    rewrite Hst2.
    assert (Hp2 : length (par st2) = length (par st)).
    { unfold st2. destruct (converged vars); exact Hp. }
    destruct (IH st2) as [Hpar Hrows].
    destruct (hessian_rows grad n rest st2) as [[rows|e] st3]; unfold sm_ret; simpl in *.
    + split; [congruence|]. intros rows' [= <-].
      destruct (Hrows rows eq_refl) as [Hl HF]. simpl. split; [lia|].
      constructor; assumption.
    + split; [congruence | intros ? [=]].
Qed.

Lemma computeCovarianceMatrix_shape (grad : vec -> result vec) (p : vec) :
  inverse_keeps_shape ->
  length (par (computeCovarianceMatrix grad {| par := p; printed := [] |}).2) = length p /\
  forall cov,
    (computeCovarianceMatrix grad {| par := p; printed := [] |}).1 = Ok cov ->
    length cov = length p /\ Forall (fun row => length row = length p) cov.
Proof.
  intros Hinv.
  unfold computeCovarianceMatrix, assemble_hessian, sm_bind, sm_get. simpl.
  destruct (hessian_rows_shape grad (length p) (seq 0 (length p))
              {| par := p; printed := [] |}) as [Hpar Hrows].
  destruct (hessian_rows grad (length p) (seq 0 (length p)) {| par := p; printed := [] |})
    as [[hess|e] st]; simpl in *; [|split; [exact Hpar | intros ? [=]]].
  destruct (Hrows hess eq_refl) as [Hl _]. rewrite length_seq in Hl.
  destruct (np_linalg_inv hess) as [cov|] eqn:Hc; simpl.
  - split; [exact Hpar|]. intros cov' [= <-].
    destruct (Hinv hess cov Hc) as [H1 H2]. rewrite Hl in H1, H2. auto.
  - split; [exact Hpar | intros ? [=]].
Qed.

Lemma apply_operation_shape_ok (o : operation) (self : Polynomial) :
  inverse_keeps_shape ->
  shape_ok self ->
  keeps_length (length (params self)) o ->
  shape_ok (apply_operation o self) /\
  length (params (apply_operation o self)) = length (params self).
Proof.
  intros Hinv (Hn & Hrows & Hcols) Hkeep. destruct o as [new_params|grad]; simpl in *.
  - unfold shape_ok. simpl. rewrite Hkeep. auto.
  - unfold Polynomial_computeCovarianceMatrix.
    destruct (computeCovarianceMatrix_shape grad (params self) Hinv) as [Hpar Hcov].
    destruct (computeCovarianceMatrix grad {| par := params self; printed := [] |})
      as [[cov|e] st]; simpl in *.
    + destruct (Hcov cov eq_refl) as [Hl HF].
      assert (Hdim : length (params self) = Z.to_nat (degree self + 1)) by lia.
      rewrite Hdim in Hl, HF.
      destruct (Nat.ltb 0 (count_nonzero (map (fun v => v <? 0) (diagonal cov)))); simpl;
        (split; [unfold shape_ok; simpl; rewrite Hpar; auto | exact Hpar]).
    + split; [unfold shape_ok; simpl; rewrite Hpar; auto | exact Hpar].
Qed.

Lemma apply_operation_keeps_covMatrix (o : operation) (self : Polynomial) :
  stores_inverse o self = false ->
  covMatrix (apply_operation o self) = covMatrix self.
Proof.
  destruct o as [new_params|grad]; simpl; [reflexivity|].
  unfold Polynomial_computeCovarianceMatrix.
  destruct (computeCovarianceMatrix grad {| par := params self; printed := [] |})
    as [[cov|e] st]; simpl; [discriminate | reflexivity].
Qed.

Lemma run_operations_shape_ok (ops : list operation) :
  inverse_keeps_shape ->
  forall self,
    shape_ok self ->
    Forall (keeps_length (length (params self))) ops ->
    shape_ok (run_operations ops self) /\
    (any_inverse_stored ops self = false ->
       covMatrix (run_operations ops self) = covMatrix self).
Proof.
  intros Hinv. unfold run_operations.
  induction ops as [|o ops IH]; intros self Hok Hall; simpl.
  - auto.
  - apply Forall_cons in Hall as [Ho Hrest].
    destruct (apply_operation_shape_ok o self Hinv Hok Ho) as [Hok' Hlen].
    rewrite <- Hlen in Hrest.
    destruct (IH (apply_operation o self) Hok' Hrest) as [Hfinal Hcov].
    split; [exact Hfinal|].
    intros Hnone. apply orb_false_iff in Hnone as [H1 H2].
    rewrite (Hcov H2).
    apply apply_operation_keeps_covMatrix. exact H1.
Qed.

(** C10 (as the code has it). After the construction and any sequence of
    [setParams] calls that keep the number of coefficients and of
    [computeCovarianceMatrix] calls, the number of coefficients is the degree
    plus 1 and the covariance matrix has [degree+1] rows and columns; the
    covariance matrix is all zero as long as no call has inverted a
    Hessian. *)
Theorem polynomial_shape_invariant (params0 : vec) (ops : list operation) :
  inverse_keeps_shape ->
  Forall (keeps_length (length params0)) ops ->
  shape_ok (run_operations ops (Polynomial_init params0)) /\
  (any_inverse_stored ops (Polynomial_init params0) = false ->
     covMatrix (run_operations ops (Polynomial_init params0)) =
       np_zeros2 (length params0) (length params0)).
Proof.
  intros Hinv Hall.
  destruct (run_operations_shape_ok ops Hinv (Polynomial_init params0)
              (Polynomial_init_shape_ok params0) Hall) as [Hok Hcov].
  split; [exact Hok|].
  intros Hnone. rewrite (Hcov Hnone). simpl.
  replace (Z.to_nat (Z.of_nat (length params0) - 1 + 1)) with (length params0) by lia.
  reflexivity.
Qed.

(** ** Further properties of the fit *)

(** X11. [horner] starts from 0 and multiplies by the abscissa before it
    adds a coefficient: a polynomial with the single coefficient [c] has
    the value [c] at every finite abscissa, but at an infinite abscissa, or
    at one that is not a number, its value is not a number. *)
Theorem horner_of_constant_polynomial (c x0 : float) :
  (is_finite x0 = true -> is_nan c = false -> (horner [c] x0 =? c) = true) /\
  (is_finite x0 = false -> is_nan (horner [c] x0) = true).
Proof.
  change (horner [c] x0) with (0 * x0 + c). apply float_zero_mul_add.
Qed.

(** X12. The Cash objective is not defined on an empty series of bins, nor
    on counts that are not one for each bin: in both cases the call ends
    with an [IndexError], whatever the parameters are. *)
Theorem cash_call_index_errors (xs ys : vec) (polynomial : Polynomial) (new_params : vec) :
  xs = [] \/ length ys <> length xs ->
  fst (BkgLogLikelihood_call (BkgLogLikelihood_init xs ys polynomial) new_params) =
    Raise IndexError.
Proof.
  intros H.
  destruct xs as [|x0 xs'] eqn:Hxs; [reflexivity|].
  destruct H as [H|Hlen]; [discriminate|]. rewrite <- Hxs in *.
  assert (Hne : xs <> []) by (rewrite Hxs; discriminate). clear Hxs.
  unfold BkgLogLikelihood_call, BkgLogLikelihood_init, with_model_params. simpl.
  unfold cash_statistic, sm_bind, sm_lift, sm_ret, alloc, read, write, _fixPrecision.
  simpl. unfold Polynomial_call. simpl.
  rewrite np_binop_same_length
    by (rewrite !length_map; unfold np_zeros; rewrite length_replicate; reflexivity).
  rewrite model_times_unit_exposure.
  set (M0 := map (fun xi => horner new_params xi * 1) xs).
  assert (HM0 : M0 <> []).
  { unfold M0. destruct xs; [congruence | discriminate]. }
  simpl. unfold sm_bind, sm_lift, sm_ret, read, write. simpl.
  rewrite (fixPrecision_value_map M0 HM0). simpl.
  set (M1 := map (fun e => if abs e <=? tiny then np_sign e * tiny else e) M0).
  assert (HM2 : map (fun m => if m <? 0 then 0 else m) M1 = map clamped M0).
  { unfold M1. rewrite map_map. reflexivity. }
  assert (Hne2 : map clamped M0 <> []).
  { destruct M0; [congruence | discriminate]. }
  assert (Hlen2 : length ys <> length (map stabilized_log (map clamped M0))).
  { unfold M0. rewrite !length_map. exact Hlen. }
  pose proof (clamp_negative_values M1) as Hcl. rewrite HM2 in Hcl.
  clearbody M1.
  assert (Hd : d_times_logM ys (map stabilized_log (map clamped M0)) = Raise IndexError).
  { unfold d_times_logM, np_getmask. rewrite length_map.
    replace (length ys =? length (map stabilized_log (map clamped M0)))%nat with false
      by (symmetry; apply Nat.eqb_neq; exact Hlen2).
    reflexivity. }
  destruct (Nat.ltb 0 (count_nonzero (map (fun m => m <? 0) M1))); simpl;
    rewrite Hcl, (evalLogM_map _ Hne2), Hd; reflexivity.
Qed.

Lemma count_nonzero_none (P : float -> bool) (v : vec) :
  Forall (fun e => P e = false) v -> count_nonzero (map P v) = 0%nat.
Proof.
  intros H. destruct (count_nonzero (map P v)) as [|k] eqn:Hc; [reflexivity|].
  exfalso. assert (Hex : existsb P v = true).
  { rewrite <- count_nonzero_existsb, Hc. reflexivity. }
  apply existsb_exists in Hex as (e & Hin & He).
  rewrite Forall_forall in H. apply list_elem_of_In in Hin.
  rewrite (H e Hin) in He. discriminate.
Qed.

Lemma count_nonzero_some (P : float -> bool) (v : vec) :
  Exists (fun e => P e = true) v -> (count_nonzero (map P v) =? 0)%nat = false.
Proof.
  intros H. apply Nat.eqb_neq. intros Hc.
  assert (Hall : Forall (fun e => P e = false) v).
  { apply count_nonzero_zero. rewrite Hc. reflexivity. }
  apply Exists_exists in H as (e & Hin & He).
  rewrite Forall_forall in Hall. rewrite (Hall e Hin) in He. discriminate.
Qed.

(** X13. [_polyfit] never looks at the abscissas or at the grade when no bin
    has a positive count: the result is the polynomial 0 with the statistic
    0.  As soon as one count is positive, [numpy.polyfit] is called and its
    exception is the exception of [_polyfit]. *)
Theorem polyfit_without_positive_counts (xs ys : vec) (polGrade : nat) :
  (Forall (fun d => (0 <? d) = false) ys ->
   _polyfit xs ys polGrade = Ok (Polynomial_init [0.0], 0.0)) /\
  (Exists (fun d => (0 <? d) = true) ys ->
   forall e, np_polyfit xs ys polGrade = Raise e -> _polyfit xs ys polGrade = Raise e).
Proof.
  split.
  - intros H. unfold _polyfit. rewrite (count_nonzero_none (fun d => 0 <? d) ys H). reflexivity.
  - intros H e He. unfold _polyfit. rewrite (count_nonzero_some (fun d => 0 <? d) ys H), He. reflexivity.
Qed.

Lemma Polynomial_computeCovarianceMatrix_ok (grad : vec -> result vec)
    (self self' : Polynomial) (warnings : list (nat * float)) :
  inverse_keeps_shape ->
  shape_ok self ->
  Polynomial_computeCovarianceMatrix grad self = (Ok tt, self', warnings) ->
  shape_ok self' /\ Forall (fun v => (v <? 0) = false) (diagonal (covMatrix self')).
Proof.
  intros Hinv (Hp & _ & _). unfold Polynomial_computeCovarianceMatrix.
  pose proof (computeCovarianceMatrix_shape grad (params self) Hinv) as [Hpar Hcov].
  destruct (computeCovarianceMatrix grad {| par := params self; printed := [] |})
    as [[cov|e] st]; [|discriminate].
  simpl in Hpar. destruct (Hcov cov eq_refl) as [Hrows Hcols].
  destruct (Nat.ltb 0 (count_nonzero (map (fun v => v <? 0) (diagonal cov)))) eqn:Hneg;
    [discriminate|].
  intros [= <- _]. split.
  - unfold shape_ok. simpl.
    assert (Hn : Z.to_nat (degree self + 1) = length (params self)) by lia.
    rewrite Hn, Hpar. split; [lia|]. split; [exact Hrows | exact Hcols].
  - simpl. apply (count_nonzero_zero (fun v => v <? 0)). exact Hneg.
Qed.

(** X14. What a successful [_polyfit] returns: a polynomial whose stored
    degree, coefficient count and covariance shape agree, and whose
    covariance matrix has no negative entry on its diagonal. *)
Theorem polyfit_result_is_well_formed (xs ys : vec) (polGrade : nat)
    (polynomial : Polynomial) (minLogLike : float) :
  inverse_keeps_shape ->
  _polyfit xs ys polGrade = Ok (polynomial, minLogLike) ->
  shape_ok polynomial /\
  Forall (fun v => (v <? 0) = false) (diagonal (covMatrix polynomial)).
Proof.
  intros Hinv. unfold _polyfit.
  destruct (Nat.eqb (count_nonzero (map (fun d => 0 <? d) ys)) 0).
  { intros [= <- _]. split; [apply Polynomial_init_shape_ok | repeat constructor]. }
  destruct (np_polyfit xs ys polGrade) as [coefficients|e]; [|discriminate].
  destruct (Nat.ltb 0 (count_nonzero
              (map (fun m => m <? 0)
                 (Polynomial_call (Polynomial_init (rev coefficients)) xs))));
    match goal with
    | |- context [check_dof ?a ?b ?c ?d ?e ?f ?g] =>
        destruct (check_dof a b c d e f g) as [[initialGuess pol] logLikelihood]
    end;
    (destruct (fmin (fun p => fst (BkgLogLikelihood_call logLikelihood p)) initialGuess)
       as [finalEstimate|e]; [|discriminate]);
    (destruct (fst (BkgLogLikelihood_call logLikelihood finalEstimate)) as [l|e];
       [|discriminate]);
    (destruct (Polynomial_computeCovarianceMatrix
                 (fun p => fst (getFreeDerivs logLikelihood p))
                 (Polynomial_init finalEstimate)) as [[[[]|e] fp] warnings] eqn:Hcov;
       [|discriminate]);
    intros [= <- _];
    apply (Polynomial_computeCovarianceMatrix_ok _ _ _ _ Hinv
             (Polynomial_init_shape_ok finalEstimate) Hcov).
Qed.

Lemma result_map_length {A B} (f : A -> result B) (l : list A) :
  forall bs, result_map f l = Ok bs -> length bs = length l.
Proof.
  induction l as [|a l IH]; simpl; intros bs H.
  - injection H as <-. reflexivity.
  - destruct (f a) as [b|e]; [|discriminate].
    destruct (result_map f l) as [bs'|e]; [|discriminate].
    injection H as <-. simpl. rewrite (IH bs' eq_refl). reflexivity.
Qed.

Lemma result_map_first_raise {A B} (f : A -> result B) (pre : list A) (a : A)
    (post : list A) (e : exn) :
  Forall (fun a' => is_Ok (f a') = true) pre ->
  f a = Raise e ->
  result_map f (pre ++ a :: post) = Raise e.
Proof.
  intros Hpre Ha. induction Hpre as [|a' pre Ha' _ IH]; simpl.
  - rewrite Ha. reflexivity.
  - destruct (f a') as [b|e']; [|discriminate]. rewrite IH. reflexivity.
Qed.

Lemma bestGrade_bound (deltas : vec) : (bestGrade deltas <= length deltas)%nat.
Proof.
  destruct (bestGrade_spec deltas) as [[-> _]|(g & d & -> & Hg & _)]; [lia|].
  apply lookup_lt_Some in Hg. lia.
Qed.

(** X15. The grade selected by [_fitGlobalAndDetermineOptimumGrade] is
    never above the highest grade that was fitted. *)
Theorem optimum_grade_at_most_max (cnts bins : vec) (best : nat) :
  _fitGlobalAndDetermineOptimumGrade cnts bins = Ok best ->
  (minGrade <= best <= maxGrade)%nat.
Proof.
  unfold _fitGlobalAndDetermineOptimumGrade.
  destruct (result_map _ (seq minGrade (maxGrade + 1 - minGrade)))
    as [logLikelihoods|e] eqn:Hfits; [|discriminate].
  intros [= <-]. apply result_map_length in Hfits. rewrite length_seq in Hfits.
  pose proof (bestGrade_bound (deltaLoglike logLikelihoods)) as Hb.
  unfold deltaLoglike in Hb. rewrite length_zip_with, length_take, length_drop in Hb.
  unfold minGrade, maxGrade, deltaLoglike in *. simpl in Hfits. lia.
Qed.

(** X16. The five fits are made in the order of the grades, and the first
    one that fails ends the selection with its exception: no grade is
    selected from the fits that succeeded. *)
Theorem grade_selection_fails_with_first_failing_fit (cnts bins : vec) (grade : nat)
    (e : exn) :
  (grade <= maxGrade)%nat ->
  (forall g, (g < grade)%nat -> is_Ok (_polyfit bins cnts g) = true) ->
  _polyfit bins cnts grade = Raise e ->
  _fitGlobalAndDetermineOptimumGrade cnts bins = Raise e.
Proof.
  intros Hle Hbefore Hfail. unfold _fitGlobalAndDetermineOptimumGrade.
  replace (seq minGrade (maxGrade + 1 - minGrade))
    with (seq 0 grade ++ grade :: seq (S grade) (maxGrade - grade)).
  - rewrite (result_map_first_raise _ _ _ _ e); [reflexivity| |rewrite Hfail; reflexivity].
    apply Forall_forall. intros g Hg. apply elem_of_seq in Hg.
    specialize (Hbefore g ltac:(lia)).
    destruct (_polyfit bins cnts g) as [[pol l]|e']; [reflexivity | discriminate].
  - unfold minGrade, maxGrade in *.
    replace (4 + 1 - 0)%nat with (grade + S (4 - grade))%nat by lia.
    rewrite seq_app. reflexivity.
Qed.

(** One entry of the array after [_fixPrecision]. *)
Lemma fix_entry_cases (e : float) :
  ((abs e <=? tiny) = false /\ (if abs e <=? tiny then np_sign e * tiny else e) = e) \/
  ((abs e <=? tiny) = true /\ (0 <? e) = true /\
   (if abs e <=? tiny then np_sign e * tiny else e) = tiny) \/
  ((abs e <=? tiny) = true /\ (e <? 0) = true /\
   (if abs e <=? tiny then np_sign e * tiny else e) = - tiny) \/
  ((e =? 0) = true /\ (if abs e <=? tiny then np_sign e * tiny else e) = 0).
Proof.
  destruct (abs e <=? tiny) eqn:Habs; [|left; split; reflexivity].
  right. unfold np_sign.
  destruct (float_sign_cases e tiny Habs) as [Hp|[Hn|Hz]].
  - left. rewrite Hp. repeat split; reflexivity.
  - right. left. rewrite (float_neg_not_pos _ Hn), Hn. repeat split; reflexivity.
  - right. right. rewrite (float_eq_zero_not_pos _ Hz), (float_neg_zero_not_neg _ Hz), Hz.
    split; reflexivity.
Qed.

Lemma fix_entry_idempotent (e : float) :
  (fun e => if abs e <=? tiny then np_sign e * tiny else e)
    (if abs e <=? tiny then np_sign e * tiny else e) =
  (if abs e <=? tiny then np_sign e * tiny else e).
Proof.
  destruct (fix_entry_cases e) as [[Habs ->]|[(_ & _ & ->)|[(_ & _ & ->)|[_ ->]]]];
    [|reflexivity..].
  cbn beta. rewrite Habs. reflexivity.
Qed.

(** X17. [_fixPrecision] changes nothing when it is applied a second time;
    an entry that is positive and at most [tiny] becomes [tiny], a negative
    one of absolute value at most [tiny] becomes [-tiny], and an exact zero
    stays zero: the rounding to [tiny] does not apply to it. *)
Theorem fixPrecision_is_idempotent (v v' : vec) :
  fixPrecision_value v = Ok v' ->
  fixPrecision_value v' = Ok v' /\
  length v' = length v /\
  forall i e, v !! i = Some e ->
    ((e =? 0) = true -> v' !! i = Some 0) /\
    ((abs e <=? tiny) = true -> (0 <? e) = true -> v' !! i = Some tiny) /\
    ((abs e <=? tiny) = true -> (e <? 0) = true -> v' !! i = Some (- tiny)) /\
    ((abs e <=? tiny) = false -> v' !! i = Some e).
Proof.
  intros H.
  assert (Hne : v <> []) by (destruct v; [discriminate | discriminate]).
  rewrite (fixPrecision_value_map v Hne) in H. injection H as <-.
  split; [|split].
  - rewrite fixPrecision_value_map by (destruct v; [congruence | discriminate]).
    f_equal. rewrite map_map. apply map_ext. intros e. apply fix_entry_idempotent.
  - apply length_map.
  - intros i e Hi. rewrite list_lookup_fmap_Some_2 with (x := e) by exact Hi.
    destruct (fix_entry_cases e) as [[Habs ->]|[(Habs & Hp & ->)|[(Habs & Hn & ->)|[Hz ->]]]].
    + repeat split; try congruence. intros Hz.
      exfalso. revert Habs Hz.
      rewrite FloatAxioms.leb_spec, FloatAxioms.abs_spec, FloatAxioms.eqb_spec, Prim2SF_zero.
      unfold SFleb, SFeqb.
      destruct (Prim2SF e) as [s|s| |s m ex]; simpl; try destruct s; discriminate.
    + repeat split; try congruence.
      * intros Hz. rewrite (float_pos_neq_zero _ Hp) in Hz. discriminate.
      * intros _ Hn. rewrite (float_neg_not_pos _ Hn) in Hp. discriminate.
    + repeat split; try congruence.
      * intros Hz. rewrite (float_neg_neq_zero _ Hn) in Hz. discriminate.
      * intros _ Hp. rewrite (float_neg_not_pos _ Hn) in Hp. discriminate.
    + repeat split; try congruence.
      * intros _ Hp. rewrite (float_eq_zero_not_pos _ Hz) in Hp. discriminate.
      * intros _ Hn. rewrite (float_neg_zero_not_neg _ Hz) in Hn. discriminate.
      * intros Habs. exfalso. revert Habs Hz.
        rewrite FloatAxioms.leb_spec, FloatAxioms.abs_spec, FloatAxioms.eqb_spec,
          Prim2SF_zero.
        unfold SFleb, SFeqb.
        destruct (Prim2SF e) as [s|s| |s m ex]; simpl; try destruct s; discriminate.
Qed.

(** X18. A step size that the search revises never leaves the interval
    from [min_step] to [max_step], unless it is not a number; and a step is
    revised only when it is neither of the two bounds. *)
Theorem revised_step_stays_in_range (delta_f current_step new_step : float) :
  revised_step delta_f current_step = (false, new_step) ->
  (current_step =? max_step) = false /\
  (current_step =? min_step) = false /\
  (is_nan new_step = true \/
   ((min_step <=? new_step) = true /\ (new_step <=? max_step) = true)).
Proof.
  unfold revised_step.
  destruct (current_step =? max_step); [discriminate|].
  destruct (current_step =? min_step); [discriminate|].
  destruct ((abs delta_f <? min_func) || (max_func <? abs delta_f)); [|discriminate].
  set (n := current_step / (abs delta_f / target)).
  intros [= <-]. split; [reflexivity|]. split; [reflexivity|].
  unfold py_min, py_max.
  destruct (max_step <? n) eqn:E1.
  - right. vm_compute. split; reflexivity.
  - destruct (n <? min_step) eqn:E2.
    + right. vm_compute. split; reflexivity.
    + destruct (float_lt_or_ge max_step n) as [H|[H|[H|H]]];
        [congruence | | vm_compute in H; discriminate | left; exact H].
      destruct (float_lt_or_ge n min_step) as [H'|[H'|[H'|H']]];
        [congruence | | left; exact H' | vm_compute in H'; discriminate].
      right. split; assumption.
Qed.

(** ** Polynomial.integral (lines 818-828) *)

(** [float(i)] for an index [i]; exact for every index below 2^53. *)
Definition float_of_nat (i : nat) : float := of_uint63 (Uint63.of_Z (Z.of_nat i)).

(** [integralCoeff]: 0 followed by [params[i-1]/float(i)] for [i] from 1 to
    [degree+1]. *)
Definition integralCoeff (self : Polynomial) : result vec :=
  match result_map
          (fun i => match params self !! (i - 1)%nat with
                    | Some c => Ok (c / float_of_nat i)
                    | None => Raise IndexError
                    end)
          (seq 1 (Z.to_nat (degree self + 1))) with
  | Raise e => Raise e
  | Ok coefficients => Ok (0 :: coefficients)
  end.

Definition Polynomial_integral (self : Polynomial) (xmin xmax : float) : result float :=
  match integralCoeff self with
  | Raise e => Raise e
  | Ok coefficients =>
      let integralPolynomial := Polynomial_init coefficients in
      Ok (horner (params integralPolynomial) xmax - horner (params integralPolynomial) xmin)
  end.

(** The coefficients of the antiderivative without constant term: the
    coefficient of the power [k] moves to the power [k+1], divided by [k+1]. *)
Definition antiderivative (coefficients : vec) : vec :=
  0 :: zip_with (fun c i => c / float_of_nat i) coefficients
         (seq 1 (length coefficients)).

Lemma integral_coefficients (ps : vec) :
  forall n j, (j + n <= length ps)%nat ->
    result_map
      (fun i => match ps !! (i - 1)%nat with
                | Some c => Ok (c / float_of_nat i)
                | None => Raise IndexError
                end)
      (seq (S j) n) =
    Ok (zip_with (fun c i => c / float_of_nat i) (take n (drop j ps)) (seq (S j) n)).
Proof.
  induction n as [|n IH]; intros j Hj; [reflexivity|].
  cbn [seq result_map]. replace (S j - 1)%nat with j by lia.
  destruct (ps !! j) as [c|] eqn:Hc; [|apply lookup_ge_None in Hc; lia].
  rewrite (IH (S j)) by lia. rewrite (drop_S ps c j Hc). reflexivity.
Qed.

(** X19. [integral] evaluates the antiderivative of the first [degree+1]
    coefficients at the two ends: coefficients of [params] beyond the
    stored degree are not read. *)
Theorem integral_uses_the_antiderivative (self : Polynomial) (xmin xmax : float) :
  (Z.to_nat (degree self + 1) <= length (params self))%nat ->
  Polynomial_integral self xmin xmax =
    Ok (horner (antiderivative (take (Z.to_nat (degree self + 1)) (params self))) xmax -
        horner (antiderivative (take (Z.to_nat (degree self + 1)) (params self))) xmin).
Proof.
  intros Hlen. unfold Polynomial_integral, integralCoeff.
  rewrite (integral_coefficients (params self) _ 0%nat) by (simpl; exact Hlen).
  unfold antiderivative. rewrite drop_0, length_take, Nat.min_l by exact Hlen.
  reflexivity.
Qed.

(** X20. When [setParams] has left fewer coefficients than the stored
    degree asks for, [integral] ends with an [IndexError]. *)
Theorem integral_with_missing_coefficients (self : Polynomial) (xmin xmax : float) :
  (length (params self) < Z.to_nat (degree self + 1))%nat ->
  Polynomial_integral self xmin xmax = Raise IndexError.
Proof.
  intros Hlen. unfold Polynomial_integral, integralCoeff.
  set (n := Z.to_nat (degree self + 1)) in *.
  set (l := length (params self)) in *.
  replace (seq 1 n) with (seq 1 l ++ S l :: seq (S (S l)) (n - S l)).
  - rewrite (result_map_first_raise _ _ _ _ IndexError); [reflexivity| |].
    + apply Forall_forall. intros i Hi. apply elem_of_seq in Hi.
      destruct (params self !! (i - 1)%nat) as [c|] eqn:Hc; [reflexivity|].
      apply lookup_ge_None in Hc. unfold l in Hi. lia.
    + simpl. rewrite Nat.sub_0_r.
      destruct (params self !! l) as [c|] eqn:Hc; [|reflexivity].
      apply lookup_lt_Some in Hc. unfold l in Hc. lia.
  - replace n with (l + S (n - S l))%nat at 2 by lia.
    rewrite seq_app. reflexivity.
Qed.

(** X21. The integral over an interval without length is zero, unless the
    value of the antiderivative at that point is infinite or not a number. *)
Theorem integral_over_empty_interval (self : Polynomial) (a r : float) :
  Polynomial_integral self a a = Ok r ->
  (r =? 0) = true \/ is_nan r = true.
Proof.
  unfold Polynomial_integral.
  destruct (integralCoeff self) as [coefficients|e]; [|discriminate].
  intros [= <-]. apply float_sub_self.
Qed.

End Fit.

(** ** Concrete runs *)

(** Stand-ins for the library functions: the tangent of the logarithm at 1
    (exact at 1), the sum from left to right, the power by repeated
    multiplication, a minimizer that returns its starting point and the
    inverse of a one-by-one matrix. *)
Definition log_tangent (m : float) : float := m - 1.
Definition sequential_sum (v : vec) : float := fold_left add v 0.
Definition repeated_pow (a : float) (k : nat) : float := Nat.iter k (fun r => r * a) 1.
Definition sequential_mean (v : vec) : float :=
  sequential_sum v / sequential_sum (map (fun _ => 1) v).
Definition constant_polyfit (x y : vec) (polGrade : nat) : result vec :=
  Ok (replicate (S polGrade) (sequential_mean y)).
Definition fmin_start (f : vec -> result float) (start : vec) : result vec := Ok start.
Definition inv_1x1 (h : matrix) : option matrix :=
  match h with
  | [[a]] => if a =? 0 then None else Some [[1 / a]]
  | _ => None
  end.

Definition run_call := BkgLogLikelihood_call log_tangent sequential_sum.
Definition run_polyfit :=
  _polyfit log_tangent sequential_sum repeated_pow sequential_mean constant_polyfit
    fmin_start inv_1x1.
Definition run_fitGlobal :=
  _fitGlobalAndDetermineOptimumGrade log_tangent sequential_sum repeated_pow
    sequential_mean constant_polyfit fmin_start inv_1x1.

(** Three bins with model values -1, 0 and 1 and counts 0, 0 and 2: the
    negative value is clamped, the two empty bins contribute no logarithm,
    and the third bin contributes [1 - 2*log(1)]. *)
Example cash_with_negative_model_and_empty_bins :
  fst (run_call (BkgLogLikelihood_init [0; 1; 2] [0; 0; 2] (Polynomial_init [0; 0]))
         [-1; 1]) = Ok 1 /\
  map (horner [-1; 1]) [0; 1; 2] = [-1; 0; 1].
Proof. split; reflexivity. Qed.

(** An empty series of bins fails at [v[0]]. *)
Example cash_on_empty_series :
  fst (run_call (BkgLogLikelihood_init [] [] (Polynomial_init [0])) [1]) = Raise IndexError.
Proof. reflexivity. Qed.

Lemma cash_call_witness :
  [0; 1; 2] <> @nil float /\
  length [0; 0; 2] = length [0; 1; 2] /\
  fst (run_call (BkgLogLikelihood_init [0; 1; 2] [0; 0; 2] (Polynomial_init [0; 0]))
         [-1; 1]) =
    Ok (sequential_sum
          (zip_with (cash_term log_tangent)
             (map (fun xi => horner [-1; 1] xi * 1) [0; 1; 2]) [0; 0; 2])).
Proof.
  assert (H1 : [0; 1; 2] <> @nil float) by discriminate.
  assert (H2 : length [0; 0; 2] = length [0; 1; 2]) by reflexivity.
  split; [exact H1|]. split; [exact H2|].
  exact (proj1 (cash_call_clamps_and_skips_empty_bins log_tangent sequential_sum
                  [0; 1; 2] [0; 0; 2] (Polynomial_init [0; 0]) [-1; 1] H1 H2)).
Defined.

(** A series without counts: every grade gives the zero polynomial and the
    likelihood 0, and grade 0 is selected. *)
Example polyfit_without_counts (polGrade : nat) :
  run_polyfit [1; 2; 3] [0; 0; 0] polGrade = Ok (Polynomial_init [0.0], 0.0).
Proof. reflexivity. Qed.

(** Four bins with counts and grade 3: the fitted polynomial is a constant,
    whatever the library functions return for the higher coefficients. *)
Example polyfit_four_bins_grade_three :
  match run_polyfit [1; 2; 3; 4] [5; 6; 7; 8] 3 with
  | Ok (polynomial, _) => params polynomial = [6.5] /\ degree polynomial = 0%Z
  | Raise _ => False
  end.
Proof. vm_compute. split; reflexivity. Qed.






(** Gradients of one parameter: twice the parameter, its opposite, zero, and
    a gradient whose change over a step is too large at the step 0.01 and too
    small at the step 1e-9, so that the step size never converges. *)
Definition grad_linear (p : vec) : result vec := Ok (map (fun v => 2 * v) p).
Definition grad_concave (p : vec) : result vec := Ok (map (fun v => -2 * v) p).
Definition grad_flat (p : vec) : result vec := Ok (map (fun v => 0 * v) p).
Definition grad_jump (p : vec) : result vec :=
  Ok (map (fun v => if 0.001 <? abs v then (if 0 <? v then 500000 else -500000)
                    else (if 0 <? v then 5e-9 else -5e-9)) p).

Example covariance_of_linear_gradient :
  Polynomial_computeCovarianceMatrix inv_1x1 grad_linear (Polynomial_init [1]) =
    (Ok tt, {| params := [1]; degree := 0; covMatrix := [[0.49999999999999956]] |}, []).
Proof. vm_compute. reflexivity. Qed.

(** The Hessian cannot be inverted: the covariance matrix stays zero. *)
Example covariance_singular_hessian :
  Polynomial_computeCovarianceMatrix inv_1x1 grad_flat (Polynomial_init [1]) =
    (Raise (PyException inverting_msg),
     {| params := [1]; degree := 0; covMatrix := [[0]] |}, []).
Proof. vm_compute. reflexivity. Qed.

(** A negative diagonal entry: the call raises, and the inverse has already
    been stored in the object. *)
Example covariance_negative_diagonal :
  Polynomial_computeCovarianceMatrix inv_1x1 grad_concave (Polynomial_init [1]) =
    (Raise (RuntimeError negative_diagonal_msg),
     {| params := [1]; degree := 0; covMatrix := [[-0.49999999999999956]] |}, []).
Proof. vm_compute. reflexivity. Qed.

(** The step size of the only parameter does not converge in 50 iterations:
    one warning is printed, with the last step, and the row is used. *)
Example covariance_step_not_converged :
  Polynomial_computeCovarianceMatrix inv_1x1 grad_jump (Polynomial_init [0]) =
    (Ok tt, {| params := [0]; degree := 0; covMatrix := [[0.20000000000000001]] |},
     [(0%nat, 1.0000000000000001e-09)]).
Proof. vm_compute. reflexivity. Qed.

(** The gradient of the Cash statistic of a constant model on three bins. *)
Definition grad_constant_fit (p : vec) : result vec :=
  fst (getFreeDerivs sequential_sum repeated_pow
         (BkgLogLikelihood_init [1; 2; 3] [2; 3; 4] (Polynomial_init [3])) p).

Example gradient_below_the_mean : grad_constant_fit [2] = Ok [-1.5].
Proof. reflexivity. Qed.

(** The finite differences leave the coefficient a rounding error away from
    where it was: the parameter list is the polynomial's own. *)
Example covariance_of_constant_fit :
  Polynomial_computeCovarianceMatrix inv_1x1 grad_constant_fit (Polynomial_init [3]) =
    (Ok tt,
     {| params := [2.9999999999999996]; degree := 0;
        covMatrix := [[0.99998888888889703]] |}, []).
Proof. vm_compute. reflexivity. Qed.

(** The search for the only parameter of [grad_jump] ends without
    convergence: the Hessian is assembled all the same and exactly one
    warning is printed, for parameter 0 with the last step. *)
Lemma covariance_numerical_errors_witness :
  well_formed_gradient grad_jump (length (params (Polynomial_init [0]))) /\
  exists vars hess st,
    step_searches grad_jump [0%nat] [0] vars (par st) /\
    hess = map hessian_row vars /\
    printed st = warnings_of [0%nat] vars /\
    printed st = [(0%nat, 1.0000000000000001e-09)] /\
    assemble_hessian grad_jump {| par := [0]; printed := [] |} = (Ok hess, st) /\
    length hess = 1%nat.
Proof.
  assert (H : well_formed_gradient grad_jump (length (params (Polynomial_init [0])))).
  { intros p Hp. eexists. split; [reflexivity|]. rewrite length_map. exact Hp. }
  split; [exact H|].
  destruct (covariance_numerical_errors inv_1x1 grad_jump (Polynomial_init [0]) H)
    as (vars & hess & st & Htrace & Hhess & Hprinted & Hasm & Hlen & _).
  exists vars, hess, st.
  split; [exact Htrace|]. split; [exact Hhess|]. split; [exact Hprinted|].
  split; [|split; [exact Hasm | exact Hlen]].
  assert (Hrun : snd (assemble_hessian grad_jump {| par := [0]; printed := [] |}) = st).
  { simpl params in Hasm. rewrite Hasm. reflexivity. }
  rewrite <- Hrun. vm_compute. reflexivity.
Defined.

Lemma inv_1x1_keeps_shape : inverse_keeps_shape inv_1x1.
Proof.
  intros h c H. destruct h as [|[|a [|b r]] [|r2 h]]; simpl in H; try discriminate.
  destruct (a =? 0); [discriminate|]. injection H as <-.
  split; [reflexivity|]. repeat constructor.
Qed.

Lemma polynomial_shape_invariant_witness :
  inverse_keeps_shape inv_1x1 /\
  Forall (keeps_length (length [1]))
    [OpSetParams [2]; OpComputeCovarianceMatrix grad_linear; OpSetParams [3]] /\
  shape_ok
    (run_operations inv_1x1
       [OpSetParams [2]; OpComputeCovarianceMatrix grad_linear; OpSetParams [3]]
       (Polynomial_init [1])).
Proof.
  assert (H : Forall (keeps_length (length [1]))
                [OpSetParams [2]; OpComputeCovarianceMatrix grad_linear; OpSetParams [3]]).
  { repeat constructor. }
  split; [exact inv_1x1_keeps_shape|]. split; [exact H|].
  exact (proj1 (polynomial_shape_invariant inv_1x1 [1]
                  [OpSetParams [2]; OpComputeCovarianceMatrix grad_linear; OpSetParams [3]]
                  inv_1x1_keeps_shape H)).
Defined.

(** C10, as the claim states it: [setParams] stores whatever it is given and
    leaves the degree and the covariance matrix alone, so two coefficients
    stand beside degree 0 and a one-by-one covariance matrix. *)
Lemma setParams_breaks_coefficient_count :
  length (params (setParams [1; 2] (Polynomial_init [0]))) = 2%nat /\
  degree (setParams [1; 2] (Polynomial_init [0])) = 0%Z /\
  covMatrix (setParams [1; 2] (Polynomial_init [0])) = [[0]] /\
  ~ shape_ok (setParams [1; 2] (Polynomial_init [0])).
Proof.
  repeat split; try reflexivity.
  intros [H _]. simpl in H. discriminate.
Qed.

(** ** Further runs *)

Lemma cash_call_index_errors_witness :
  fst (run_call (BkgLogLikelihood_init [1; 2; 3] [1; 2] (Polynomial_init [0])) [1]) =
    Raise IndexError.
Proof.
  apply (cash_call_index_errors log_tangent sequential_sum [1; 2; 3] [1; 2]
           (Polynomial_init [0]) [1]).
  right. simpl. lia.
Defined.

Lemma polyfit_without_positive_counts_witness :
  run_polyfit [1; 2; 3] [0; -1; 0] 2 = Ok (Polynomial_init [0.0], 0.0).
Proof.
  apply (proj1 (polyfit_without_positive_counts log_tangent sequential_sum repeated_pow
                  sequential_mean constant_polyfit fmin_start inv_1x1
                  [1; 2; 3] [0; -1; 0] 2)).
  repeat constructor.
Defined.

Lemma polyfit_result_is_well_formed_witness :
  shape_ok {| params := [6.5]; degree := 0; covMatrix := [[1.6249961538461772]] |} /\
  Forall (fun v => (v <? 0) = false) (diagonal [[1.6249961538461772]]).
Proof.
  apply (polyfit_result_is_well_formed log_tangent sequential_sum repeated_pow
           sequential_mean constant_polyfit fmin_start inv_1x1
           [1; 2; 3; 4] [5; 6; 7; 8] 3
           {| params := [6.5]; degree := 0; covMatrix := [[1.6249961538461772]] |} (-117)).
  - exact inv_1x1_keeps_shape.
  - vm_compute. reflexivity.
Defined.

Lemma optimum_grade_at_most_max_witness :
  run_fitGlobal [5; 0; 0; 0] [1; 2; 3; 4] = Ok 0%nat /\ (minGrade <= 0 <= maxGrade)%nat.
Proof.
  assert (H : run_fitGlobal [5; 0; 0; 0] [1; 2; 3; 4] = Ok 0%nat).
  { vm_compute. reflexivity. }
  split; [exact H|].
  exact (optimum_grade_at_most_max log_tangent sequential_sum repeated_pow
           sequential_mean constant_polyfit fmin_start inv_1x1
           [5; 0; 0; 0] [1; 2; 3; 4] 0%nat H).
Defined.

(** With the counts 5, 6, 7, 8 the fit of grade 0 succeeds and the Hessian
    of the fit of grade 1 cannot be inverted. *)
Lemma grade_selection_fails_with_first_failing_fit_witness :
  run_fitGlobal [5; 6; 7; 8] [1; 2; 3; 4] = Raise (PyException inverting_msg).
Proof.
  apply (grade_selection_fails_with_first_failing_fit log_tangent sequential_sum
           repeated_pow sequential_mean constant_polyfit fmin_start inv_1x1
           [5; 6; 7; 8] [1; 2; 3; 4] 1%nat (PyException inverting_msg)).
  - unfold maxGrade. lia.
  - intros g Hg. assert (Hg0 : g = 0%nat) by lia. rewrite Hg0. vm_compute. reflexivity.
  - vm_compute. reflexivity.
Defined.

Lemma fixPrecision_is_idempotent_witness :
  fixPrecision_value [0; 0x1p-1030; -0x1p-1030; 1; -0] = Ok [0; tiny; - tiny; 1; 0] /\
  fixPrecision_value [0; tiny; - tiny; 1; 0] = Ok [0; tiny; - tiny; 1; 0].
Proof.
  assert (H : fixPrecision_value [0; 0x1p-1030; -0x1p-1030; 1; -0] =
              Ok [0; tiny; - tiny; 1; 0]) by reflexivity.
  split; [exact H|].
  exact (proj1 (fixPrecision_is_idempotent [0; 0x1p-1030; -0x1p-1030; 1; -0]
                  [0; tiny; - tiny; 1; 0] H)).
Defined.

Lemma revised_step_stays_in_range_witness :
  revised_step 100 init_step = (false, 1.0000000000000001e-05) /\
  (is_nan 1.0000000000000001e-05 = true \/
   ((min_step <=? 1.0000000000000001e-05) = true /\
    (1.0000000000000001e-05 <=? max_step) = true)).
Proof.
  assert (H : revised_step 100 init_step = (false, 1.0000000000000001e-05))
    by reflexivity.
  split; [exact H|].
  exact (proj2 (proj2 (revised_step_stays_in_range 100 init_step
                         1.0000000000000001e-05 H))).
Defined.

Lemma integral_uses_the_antiderivative_witness :
  Polynomial_integral (Polynomial_init [1; 2]) 0 3 =
    Ok (horner (antiderivative [1; 2]) 3 - horner (antiderivative [1; 2]) 0).
Proof.
  apply (integral_uses_the_antiderivative (Polynomial_init [1; 2]) 0 3).
  simpl. lia.
Defined.

Lemma integral_with_missing_coefficients_witness :
  Polynomial_integral (setParams [1] (Polynomial_init [1; 2])) 0 3 = Raise IndexError.
Proof.
  apply (integral_with_missing_coefficients (setParams [1] (Polynomial_init [1; 2])) 0 3).
  simpl. lia.
Defined.

Lemma integral_over_empty_interval_witness :
  Polynomial_integral (Polynomial_init [1; 2]) 3 3 = Ok 0 /\
  ((0 =? 0) = true \/ is_nan 0 = true).
Proof.
  assert (H : Polynomial_integral (Polynomial_init [1; 2]) 3 3 = Ok 0).
  { vm_compute. reflexivity. }
  split; [exact H|].
  exact (integral_over_empty_interval (Polynomial_init [1; 2]) 3 0 H).
Defined.

End Bkg.
